(** * Admin-panel forms: course editor and CMS component editor

    A shallow embedding of the validation / normalisation logic of the
    course form ([CourseForm]) and of the upload lifecycle of the CMS
    component form ([SiteComponentsForm]), with the properties of the
    specification proved (or refuted) over it.

    Layout: the first half of the file holds the model (modules [JS],
    [Currency], [CourseForm], [SiteComponentsForm]); the second half holds
    the lemmas and theorems. *)

From Stdlib Require Import String Ascii.
From Stdlib Require Import List NArith ZArith QArith Qround Bool Lia Arith.
Import ListNotations.

Local Close Scope Q_scope.
Local Open Scope N_scope.
Local Open Scope list_scope.

(* ================================================================== *)
(** * Part I. The model                                                 *)
(* ================================================================== *)

(** ** The fragment of the JavaScript runtime the forms rely on *)

Module JS.

(** A JavaScript string is a sequence of UTF-16 code units. *)
Definition jsstring : Type := list N.

(** An ASCII literal of the source, as code units. *)
Definition lit (s : string) : jsstring :=
  map N_of_ascii (list_ascii_of_string s).

(** [a === b] on strings. *)
Fixpoint str_eqb (a b : jsstring) : bool :=
  match a, b with
  | [], [] => true
  | x :: a', y :: b' => (x =? y) && str_eqb a' b'
  | _, _ => false
  end.

(** A property or variable that may hold [undefined], [null] or a value. *)
Inductive js (A : Type) : Type :=
| undefined
| null
| val (a : A).
Arguments undefined {A}.
Arguments null {A}.
Arguments val {A} a.

(** [x ?? d]. *)
Definition nullish {A} (x : js A) (d : A) : A :=
  match x with
  | val a => a
  | _ => d
  end.

(** [x?.f]: the property [f] of [x], [undefined] when [x] is nullish. *)
Definition chain {A B} (x : js A) (f : A -> js B) : js B :=
  match x with
  | val a => f a
  | _ => undefined
  end.

(** Truthiness of a possibly missing string: only a non-empty string. *)
Definition truthy_str (x : js jsstring) : bool :=
  match x with
  | val (_ :: _) => true
  | _ => false
  end.

(** [x || y] where [x] is a possibly missing string and [y] a string. *)
Definition or_str (x : js jsstring) (y : jsstring) : jsstring :=
  match x with
  | val (c :: s) => c :: s
  | _ => y
  end.

(** *** Character classes *)

(** [\d] (no [u] flag): the ASCII digits. *)
Definition is_digit (c : N) : bool := (48 <=? c) && (c <=? 57).

(** [\s], which is also the set removed by [trim] and skipped by [Number]
    and [parseInt]: WhiteSpace and LineTerminator of ECMAScript. *)
Definition is_ws (c : N) : bool :=
  ((9 <=? c) && (c <=? 13))          (* TAB LF VT FF CR *)
  || (c =? 32) || (c =? 160)         (* SP NBSP *)
  || (c =? 5760)                     (* U+1680 *)
  || ((8192 <=? c) && (c <=? 8202))  (* U+2000 .. U+200A *)
  || (c =? 8232) || (c =? 8233)      (* LS PS *)
  || (c =? 8239) || (c =? 8287)      (* U+202F U+205F *)
  || (c =? 12288) || (c =? 65279).   (* U+3000 U+FEFF *)

(** *** String methods *)

(** The longest prefix of [s] in the class [p], and the rest. *)
Fixpoint span (p : N -> bool) (s : jsstring) : jsstring * jsstring :=
  match s with
  | [] => ([], [])
  | c :: r =>
      if p c then let (a, b) := span p r in (c :: a, b) else ([], s)
  end.

Fixpoint dropWhile (p : N -> bool) (s : jsstring) : jsstring :=
  match s with
  | [] => []
  | c :: r => if p c then dropWhile p r else s
  end.

Definition trimStart (s : jsstring) : jsstring := dropWhile is_ws s.

(** [s.trim()]. *)
Definition trim (s : jsstring) : jsstring :=
  rev (dropWhile is_ws (rev (dropWhile is_ws s))).

(** [/^[p]+$/.test(s)] for a character class [p]. *)
Definition test_all (p : N -> bool) (s : jsstring) : bool :=
  match s with
  | [] => false
  | _ => forallb p s
  end.

(** [s.replace(/[p]/g, repl)]: every code unit of the class is a match. *)
Definition replace_class (p : N -> bool) (repl s : jsstring) : jsstring :=
  flat_map (fun c => if p c then repl else [c]) s.

(** [s.replace(/[p]+/g, repl)]: scanning from the left, a match starts at
    the first code unit of the class and, the quantifier being greedy,
    extends over the longest run; the scan resumes after the match. *)
Fixpoint replace_class_plus_fuel (fuel : nat) (p : N -> bool)
    (repl s : jsstring) : jsstring :=
  match fuel with
  | O => s
  | S fuel' =>
      match s with
      | [] => []
      | c :: r =>
          if p c
          then repl ++ replace_class_plus_fuel fuel' p repl (snd (span p s))
          else c :: replace_class_plus_fuel fuel' p repl r
      end
  end.

Definition replace_class_plus (p : N -> bool) (repl s : jsstring) : jsstring :=
  replace_class_plus_fuel (length s) p repl s.

(** *** Numbers

    A Number is kept as the exact mathematical value of the literal it was
    read from; the rounding to a double is applied where a comparison
    depends on it. *)
Inductive number : Type :=
| NaN
| Finite (mv : Q)
| PlusInfinity
| MinusInfinity.

Definition digit_val (c : N) : N := c - 48.

(** The value of a string of decimal digits. *)
Definition digits_value (ds : jsstring) : N :=
  fold_left (fun acc c => 10 * acc + digit_val c) ds 0.

Definition negate (x : number) : number :=
  match x with
  | NaN => NaN
  | Finite q => Finite (- q)%Q
  | PlusInfinity => MinusInfinity
  | MinusInfinity => PlusInfinity
  end.

(** [x >= k] for an integer constant [k]: [NaN] compares false.  Rounding a
    value to a double is monotone and leaves the integers used here fixed,
    so the comparison is decided on the exact value. *)
Definition number_ge (x : number) (k : Z) : bool :=
  match x with
  | NaN => false
  | Finite q => Qle_bool (inject_Z k) q
  | PlusInfinity => true
  | MinusInfinity => false
  end.

(** [x === 19].  The doubles next to 19 are [19 - 2^-48] and [19 + 2^-48];
    round-to-nearest, ties to even, sends to 19 exactly the values at
    distance at most [2^-49], both ends included since the significand of
    19 is even. *)
Definition half_ulp_19 : Q := (1 # (2 ^ 49))%Q.

Definition number_is_19 (x : number) : bool :=
  match x with
  | Finite q =>
      Qle_bool (inject_Z 19 - half_ulp_19)%Q q
      && Qle_bool q (inject_Z 19 + half_ulp_19)%Q
  | _ => false
  end.

(** [parseInt(s, 10)]: leading white space, a sign, then the longest prefix
    of decimal digits; [NaN] when there is none. *)
Definition parseInt10 (s : jsstring) : number :=
  let t := trimStart s in
  let '(neg, u) :=
    match t with
    | c :: r => if c =? 45 then (true, r) else if c =? 43 then (false, r) else (false, t)
    | [] => (false, t)
    end in
  match fst (span is_digit u) with
  | [] => NaN
  | ds =>
      let v := Finite (inject_Z (Z.of_N (digits_value ds))) in
      if neg then negate v else v
  end.

(** *** [Number(s)] on a string (StringToNumber) *)

Definition is_hex_digit (c : N) : bool :=
  is_digit c || ((65 <=? c) && (c <=? 70)) || ((97 <=? c) && (c <=? 102)).
Definition is_octal_digit (c : N) : bool := (48 <=? c) && (c <=? 55).
Definition is_binary_digit (c : N) : bool := (c =? 48) || (c =? 49).

Definition hex_digit_val (c : N) : N :=
  if is_digit c then c - 48
  else if (65 <=? c) && (c <=? 70) then c - 55
  else c - 87.

Definition radix_value (radix : N) (ds : jsstring) : N :=
  fold_left (fun acc c => radix * acc + hex_digit_val c) ds 0.

(** NonDecimalIntegerLiteral: [0x], [0o] or [0b] and at least one digit. *)
Definition NonDecimalIntegerLiteral (s : jsstring) : option N :=
  match s with
  | 48 :: m :: ds =>
      if ((m =? 120) || (m =? 88)) && test_all is_hex_digit ds
      then Some (radix_value 16 ds)
      else if ((m =? 111) || (m =? 79)) && test_all is_octal_digit ds
      then Some (radix_value 8 ds)
      else if ((m =? 98) || (m =? 66)) && test_all is_binary_digit ds
      then Some (radix_value 2 ds)
      else None
  | _ => None
  end.

(** ExponentPart, optional, up to the end of the literal. *)
Definition ExponentPart_opt (s : jsstring) : option Z :=
  match s with
  | [] => Some 0%Z
  | c :: r =>
      if (c =? 101) || (c =? 69) then
        let '(neg, ds) :=
          match r with
          | sg :: r' =>
              if sg =? 45 then (true, r')
              else if sg =? 43 then (false, r') else (false, r)
          | [] => (false, r)
          end in
        if test_all is_digit ds
        then Some (if neg then (- Z.of_N (digits_value ds))%Z
                   else Z.of_N (digits_value ds))
        else None
      else None
  end.

(** StrUnsignedDecimalLiteral. *)
Definition StrUnsignedDecimalLiteral (s : jsstring) : number :=
  if str_eqb s (lit "Infinity") then PlusInfinity
  else
    let (int_part, r1) := span is_digit s in
    let '(frac_part, r2) :=
      match r1 with
      | c :: r => if c =? 46 then span is_digit r else ([], r1)
      | [] => ([], [])
      end in
    match int_part ++ frac_part with
    | [] => NaN
    | ds =>
        match ExponentPart_opt r2 with
        | None => NaN
        | Some e =>
            Finite (inject_Z (Z.of_N (digits_value ds))
                    * Qpower (inject_Z 10) (e - Z.of_nat (length frac_part)))%Q
        end
    end.

(** StrDecimalLiteral: an optional sign in front. *)
Definition StrDecimalLiteral (s : jsstring) : number :=
  match s with
  | c :: r =>
      if c =? 45 then negate (StrUnsignedDecimalLiteral r)
      else if c =? 43 then StrUnsignedDecimalLiteral r
      else StrUnsignedDecimalLiteral s
  | [] => NaN
  end.

(** [Number(s)]: white space around the literal is dropped, the empty
    literal is [+0]. *)
Definition Number (s : jsstring) : number :=
  match trim s with
  | [] => Finite (inject_Z 0)
  | t =>
      match NonDecimalIntegerLiteral t with
      | Some n => Finite (inject_Z (Z.of_N n))
      | None => StrDecimalLiteral t
      end
  end.

(** *** Arrays and sets of strings *)

(** [arr.includes(x)]. *)
Definition includes (arr : list jsstring) (x : jsstring) : bool :=
  existsb (str_eqb x) arr.

(** A [Set] of strings, kept as the list of its elements in insertion
    order: [add] appends an element that is not there yet, [delete] removes
    it, [new Set(arr)] adds the elements of [arr] one by one and
    [Array.from] lists the elements in insertion order. *)
Definition set_add (s : list jsstring) (x : jsstring) : list jsstring :=
  if includes s x then s else s ++ [x].

Definition set_delete (s : list jsstring) (x : jsstring) : list jsstring :=
  filter (fun y => negb (str_eqb x y)) s.

Definition new_Set (arr : list jsstring) : list jsstring :=
  fold_left set_add arr [].

Definition Array_from (s : list jsstring) : list jsstring := s.

(** [arr.splice(index, 1)] for an index that is a position ([0], [1], ...):
    what is left in [arr].  Past the end nothing is removed. *)
Definition splice1 {A} (index : nat) (arr : list A) : list A :=
  firstn index arr ++ skipn (S index) arr.

End JS.

(** ** The currency mask library ([@/lib/masks/currency])

    The form imports [currencyApplyMask] and [currencyRemoveMaskToNumber]
    from a module whose text is not part of the sources at hand; both are
    called with the locale [pt-BR] and the currency [BRL]. *)

Module Currency.
Import JS.

(** Modelled from the spec: the pieces of the [pt-BR] / [BRL] format it
    names, "thousands separators, currency symbol, decimal comma". *)
Definition thousands_sep : N := 46.   (* . *)
Definition decimal_comma : N := 44.   (* , *)
Definition minus_sign : N := 45.      (* - *)
Definition currency_symbol : jsstring := lit "R$".

(** Modelled from the spec: the locale formatting that is stripped, being
    the thousands separator, the characters of the currency symbol and the
    blank that a formatter may put next to the symbol. *)
Definition is_formatting (c : N) : bool :=
  (c =? thousands_sep) || existsb (N.eqb c) currency_symbol || is_ws c.

(** Modelled from the spec: the characters that survive the stripping. *)
Definition keep (c : N) : bool := negb (is_formatting c).

(** Modelled from the spec: reading an unsigned number written with a
    decimal comma, that is digits, then optionally a comma and more digits,
    with at least one digit in all. *)
Definition read_unsigned (u : jsstring) : number :=
  let (int_part, r1) := span is_digit u in
  let frac :=
    match r1 with
    | [] => Some []
    | c :: r =>
        if (c =? decimal_comma) && forallb is_digit r then Some r else None
    end in
  match frac with
  | None => NaN
  | Some frac_part =>
      match int_part ++ frac_part with
      | [] => NaN
      | ds =>
          Finite (inject_Z (Z.of_N (digits_value ds))
                  / Qpower (inject_Z 10) (Z.of_nat (length frac_part)))%Q
      end
  end.

(** Modelled from the spec: [currencyRemoveMaskToNumber], whose source is
    missing.  "After stripping locale formatting (thousands separators,
    currency symbol, decimal comma) to a numeric value": the formatting
    characters are dropped, the comma is read as the decimal point, and the
    remaining text is read as a signed decimal number; text that is not
    such a number gives [NaN]. *)
Definition currencyRemoveMaskToNumber (v : jsstring) : number :=
  let s := filter keep v in
  match s with
  | c :: r =>
      if c =? minus_sign then negate (read_unsigned r) else read_unsigned s
  | [] => NaN
  end.

(** Modelled from the spec: the decimal digits of a natural number, most
    significant first, for the rendering. *)
Fixpoint to_digits_fuel (fuel : nat) (n : N) (acc : jsstring) : jsstring :=
  match fuel with
  | O => acc
  | S fuel' =>
      let acc' := (48 + n mod 10) :: acc in
      if n / 10 =? 0 then acc' else to_digits_fuel fuel' (n / 10) acc'
  end.

(** Modelled from the spec: the digits of [n]; a number has no more
    decimal digits than binary ones, which bounds the recursion. *)
Definition to_digits (n : N) : jsstring :=
  to_digits_fuel (S (N.to_nat (N.log2 n))) n [].

(** Modelled from the spec: "integer-part with thousands separator".  A
    separator after every third digit, on the digits in reverse order; [k]
    counts the digits written since the last separator. *)
Fixpoint sep3 (k : nat) (l : jsstring) : jsstring :=
  match l with
  | [] => []
  | d :: r =>
      match k with
      | 3%nat => thousands_sep :: d :: sep3 1 r
      | _ => d :: sep3 (S k) r
      end
  end.

(** Modelled from the spec: the integer part grouped in thousands. *)
Definition group_thousands (ds : jsstring) : jsstring :=
  rev (sep3 0 (rev ds)).

(** Modelled from the spec: the "2-decimal fraction". *)
Definition two_digits (n : N) : jsstring :=
  [48 + (n / 10) mod 10; 48 + n mod 10].

(** Modelled from the spec: the rendering half of [currencyApplyMask],
    "<currency symbol><integer-part with thousands separator>,<2-decimal
    fraction>", of an amount given in hundredths. *)
Definition render (cents : Z) : jsstring :=
  let a := Z.abs_N cents in
  (if (cents <? 0)%Z then [minus_sign] else [])
  ++ currency_symbol
  ++ group_thousands (to_digits (a / 100))
  ++ [decimal_comma]
  ++ two_digits (a mod 100).

Section Mask.

(** Modelled from the spec: what it leaves open, namely how a value with
    more than two decimals is brought to hundredths, and what is shown for
    text that is not a number. *)
Variable round_cents : Q -> Z.
Variable unparsed : jsstring -> jsstring.

(** Modelled from the spec: [currencyApplyMask], whose source is missing.
    "Raw input is parsed, re-rendered as <currency symbol><integer-part
    with thousands separator>,<2-decimal fraction>". *)
Definition currencyApplyMask (raw : jsstring) : jsstring :=
  match currencyRemoveMaskToNumber raw with
  | Finite q => render (round_cents q)
  | _ => unparsed raw
  end.

End Mask.

(** Modelled from the spec: two candidate roundings to hundredths, towards
    minus infinity and to nearest with halves up. *)
Definition round_floor (q : Q) : Z := Qfloor (q * inject_Z 100)%Q.
Definition round_half_up (q : Q) : Z := Qfloor (q * inject_Z 100 + (1 # 2))%Q.

End Currency.

(** ** The course form ([CourseForm]) *)

Module CourseForm.
Import JS.

(** *** The record being edited ([CoursePayload] / [CourseRecord]) *)

Record Tx2 : Type := { name_label : jsstring; name_valor : jsstring }.

Record PaginaVenda : Type := { link : js jsstring; label : js jsstring }.

Record Adc : Type :=
  { recheck : js jsstring; recorrente : js jsstring; cor : js jsstring }.

Record Ead : Type := { id_eadcontrol : js jsstring }.

Record Config : Type :=
  { proximo_curso : js jsstring;
    gratis : js jsstring;
    comissao : js jsstring;
    tx2 : js (list Tx2);
    tipo_desconto_taxa : js jsstring;
    desconto_taxa : js jsstring;
    pagina_divulgacao : js jsstring;
    video : js jsstring;
    pagina_venda : js PaginaVenda;
    adc : js Adc;
    ead : js Ead }.

Module CourseModule.
Record t : Type :=
  { etapa : js jsstring;
    titulo : js jsstring;
    limite : js jsstring;
    valor : js jsstring;
    aviao : js (list jsstring) }.
End CourseModule.

Module CoursePayload.
Record t : Type :=
  { nome : js jsstring;
    titulo : js jsstring;
    ativo : js jsstring;
    destaque : js jsstring;
    publicar : js jsstring;
    duracao : js jsstring;
    unidade_duracao : js jsstring;
    tipo : js jsstring;
    categoria : js jsstring;
    config : js Config;
    inscricao : js jsstring;
    valor : js jsstring;
    parcelas : js jsstring;
    valor_parcela : js jsstring;
    aeronaves : js (list jsstring);
    modulos : js (list CourseModule.t) }.
End CoursePayload.

(** *** The form's [defaultValues] *)

Definition default_tx2 : list Tx2 :=
  [ {| name_label := lit ""; name_valor := lit "" |} ].

Definition default_pagina_venda : PaginaVenda :=
  {| link := val (lit ""); label := val (lit "") |}.

Definition default_adc : Adc :=
  {| recheck := val (lit "n");
     recorrente := val (lit "n");
     cor := val (lit "FFFFFF") |}.

Definition default_ead : Ead := {| id_eadcontrol := val (lit "") |}.

Definition default_config : Config :=
  {| proximo_curso := val (lit "");
     gratis := val (lit "n");
     comissao := val (lit "0,00");
     tx2 := val default_tx2;
     tipo_desconto_taxa := val (lit "v");
     desconto_taxa := val (lit "");
     pagina_divulgacao := val (lit "");
     video := val (lit "");
     pagina_venda := val default_pagina_venda;
     adc := val default_adc;
     ead := val default_ead |}.

Definition defaultValues : CoursePayload.t :=
  {| CoursePayload.nome := val (lit "");
     CoursePayload.titulo := val (lit "");
     CoursePayload.ativo := val (lit "s");
     CoursePayload.destaque := val (lit "n");
     CoursePayload.publicar := val (lit "s");
     CoursePayload.duracao := val (lit "0");
     CoursePayload.unidade_duracao := val (lit "Hrs");
     CoursePayload.tipo := val (lit "2");
     CoursePayload.categoria := val (lit "cursos_online");
     CoursePayload.config := val default_config;
     CoursePayload.inscricao := val (lit "0,00");
     CoursePayload.valor := val (lit "0,00");
     CoursePayload.parcelas := val (lit "1");
     CoursePayload.valor_parcela := val (lit "0,00");
     CoursePayload.aeronaves := val [];
     CoursePayload.modulos := val [] |}.

(** *** [applyInitialData] *)

(** [l?.length] and its truthiness. *)
Definition length_of {A} (l : list A) : js nat := val (length l).

Definition truthy_num (n : js nat) : bool :=
  match n with
  | val (S _) => true
  | _ => false
  end.

(** The [config] object handed to [form.reset].  In the branch taken when
    [c.config?.tx2?.length] is truthy, [c.config] is an object, so the
    plain access [c.config.tx2] is the chained one. *)
Definition reset_config (c : CoursePayload.t) : Config :=
  let cfg := CoursePayload.config c in
  {| proximo_curso := val (nullish (chain cfg proximo_curso) (lit ""));
     gratis := val (nullish (chain cfg gratis) (lit "n"));
     comissao := val (nullish (chain cfg comissao) (lit ""));
     tx2 :=
       if truthy_num (chain (chain cfg tx2) length_of)
       then chain cfg tx2
       else val [ {| name_label := lit ""; name_valor := lit "" |} ];
     tipo_desconto_taxa := val (nullish (chain cfg tipo_desconto_taxa) (lit "v"));
     desconto_taxa := val (nullish (chain cfg desconto_taxa) (lit ""));
     pagina_divulgacao := val (nullish (chain cfg pagina_divulgacao) (lit ""));
     video := val (nullish (chain cfg video) (lit ""));
     pagina_venda :=
       val (nullish (chain cfg pagina_venda)
              {| link := val (lit ""); label := val (lit "") |});
     adc :=
       val (nullish (chain cfg adc)
              {| recheck := val (lit "n");
                 recorrente := val (lit "n");
                 cor := val (lit "FFFFFF") |});
     ead := val (nullish (chain cfg ead) {| id_eadcontrol := val (lit "") |}) |}.

(** The effect body: the new form values, given the current ones.  The
    spread [...c] copies every property of the record; [config],
    [aeronaves] and [modulos] are then overwritten. *)
Definition applyInitialData (initialData : js CoursePayload.t)
    (values : CoursePayload.t) : CoursePayload.t :=
  match initialData with
  | val c =>
      {| CoursePayload.nome := CoursePayload.nome c;
         CoursePayload.titulo := CoursePayload.titulo c;
         CoursePayload.ativo := CoursePayload.ativo c;
         CoursePayload.destaque := CoursePayload.destaque c;
         CoursePayload.publicar := CoursePayload.publicar c;
         CoursePayload.duracao := CoursePayload.duracao c;
         CoursePayload.unidade_duracao := CoursePayload.unidade_duracao c;
         CoursePayload.tipo := CoursePayload.tipo c;
         CoursePayload.categoria := CoursePayload.categoria c;
         CoursePayload.config := val (reset_config c);
         CoursePayload.inscricao := CoursePayload.inscricao c;
         CoursePayload.valor := CoursePayload.valor c;
         CoursePayload.parcelas := CoursePayload.parcelas c;
         CoursePayload.valor_parcela := CoursePayload.valor_parcela c;
         CoursePayload.aeronaves := val (nullish (CoursePayload.aeronaves c) []);
         CoursePayload.modulos := val (nullish (CoursePayload.modulos c) []) |}
  | _ => values
  end.

(** Per-leaf reconciliation as the specification words it: a leaf takes the
    remote value when present and non-null, else its default.  Used only to
    compare with [reset_config]. *)
Definition leaf {A} (remote : js A) (default : js A) : js A :=
  match remote with
  | val a => val a
  | _ => default
  end.

Definition per_leaf_config (c : CoursePayload.t) : Config :=
  let cfg := CoursePayload.config c in
  let pv := chain cfg pagina_venda in
  let ad := chain cfg adc in
  let ea := chain cfg ead in
  {| proximo_curso := leaf (chain cfg proximo_curso) (proximo_curso default_config);
     gratis := leaf (chain cfg gratis) (gratis default_config);
     comissao := leaf (chain cfg comissao) (comissao default_config);
     tx2 := leaf (chain cfg tx2) (tx2 default_config);
     tipo_desconto_taxa :=
       leaf (chain cfg tipo_desconto_taxa) (tipo_desconto_taxa default_config);
     desconto_taxa := leaf (chain cfg desconto_taxa) (desconto_taxa default_config);
     pagina_divulgacao :=
       leaf (chain cfg pagina_divulgacao) (pagina_divulgacao default_config);
     video := leaf (chain cfg video) (video default_config);
     pagina_venda :=
       val {| link := leaf (chain pv link) (link default_pagina_venda);
              label := leaf (chain pv label) (label default_pagina_venda) |};
     adc :=
       val {| recheck := leaf (chain ad recheck) (recheck default_adc);
              recorrente := leaf (chain ad recorrente) (recorrente default_adc);
              cor := leaf (chain ad cor) (cor default_adc) |};
     ead :=
       val {| id_eadcontrol :=
                leaf (chain ea id_eadcontrol) (id_eadcontrol default_ead) |} |}.

(** *** The validation schema ([moduleSchema], [courseSchema])

    The resolver keeps, for every field path, the first issue reported at
    that path.  A field error carries the issue code and the message the
    schema gives for it; [None] stands for the library's built-in message. *)

Inductive IssueCode : Type :=
| invalid_type
| too_small
| custom
| invalid_enum_value.

Record FieldError : Type :=
  { code : IssueCode; message : option string }.

(** A check on a string value: [None] when it passes. *)
Definition StringCheck : Type := jsstring -> option FieldError.

Fixpoint first_issue (checks : list StringCheck) (s : jsstring) : option FieldError :=
  match checks with
  | [] => None
  | chk :: rest =>
      match chk s with
      | Some e => Some e
      | None => first_issue rest s
      end
  end.

(** [z.string()] followed by checks: a missing or null value is a type
    issue and the checks are not run. *)
Definition z_string (checks : list StringCheck) (x : js jsstring) : option FieldError :=
  match x with
  | val s => first_issue checks s
  | _ => Some {| code := invalid_type; message := None |}
  end.

(** [.min(1, msg)]. *)
Definition min1 (msg : option string) : StringCheck :=
  fun s =>
    match s with
    | [] => Some {| code := too_small; message := msg |}
    | _ => None
    end.

(** [.refine(f, msg)]. *)
Definition refine (f : jsstring -> bool) (msg : string) : StringCheck :=
  fun s => if f s then None else Some {| code := custom; message := Some msg |}.

(** [.optional()]: [undefined] passes. *)
Definition optional {A} (schema : js A -> option FieldError) (x : js A)
    : option FieldError :=
  match x with
  | undefined => None
  | _ => schema x
  end.

(** [z.enum(options, { required_error })]. *)
Definition z_enum (options : list jsstring) (required_error : option string)
    (x : js jsstring) : option FieldError :=
  match x with
  | undefined => Some {| code := invalid_type; message := required_error |}
  | null => Some {| code := invalid_type; message := None |}
  | val s =>
      if existsb (str_eqb s) options then None
      else Some {| code := invalid_enum_value; message := None |}
  end.

(** [z.array(z.string())]: the elements are strings by their type. *)
Definition z_array_string (x : js (list jsstring)) : option FieldError :=
  match x with
  | val _ => None
  | _ => Some {| code := invalid_type; message := None |}
  end.

Module ModuleErrors.
Record t : Type :=
  { etapa : option FieldError;
    titulo : option FieldError;
    limite : option FieldError;
    valor : option FieldError;
    aviao : option FieldError }.
End ModuleErrors.

(** What [errors.modulos] holds: nothing, a field error for the array as a
    whole (an object, not an array), or an array indexed like [modulos]
    whose entries without an issue are empty slots. *)
Inductive ModulosErrors : Type :=
| modulos_ok
| modulos_field_error (e : FieldError)
| modulos_entries (entries : list (option ModuleErrors.t)).

Module Errors.
Record t : Type :=
  { nome : option FieldError;
    titulo : option FieldError;
    ativo : option FieldError;
    destaque : option FieldError;
    publicar : option FieldError;
    duracao : option FieldError;
    unidade_duracao : option FieldError;
    tipo : option FieldError;
    categoria : option FieldError;
    inscricao : option FieldError;
    valor : option FieldError;
    parcelas : option FieldError;
    valor_parcela : option FieldError;
    aeronaves : option FieldError;
    modulos : ModulosErrors }.
End Errors.

Definition no_module_errors (e : ModuleErrors.t) : bool :=
  match ModuleErrors.etapa e, ModuleErrors.titulo e, ModuleErrors.limite e,
        ModuleErrors.valor e, ModuleErrors.aviao e with
  | None, None, None, None, None => true
  | _, _, _, _, _ => false
  end.

(** [moduleSchema] on one entry: [None] when the entry has no issue. *)
Definition moduleSchema (m : CourseModule.t) : option ModuleErrors.t :=
  let e :=
    {| ModuleErrors.etapa := z_string [min1 None] (CourseModule.etapa m);
       ModuleErrors.titulo :=
         z_string [min1 (Some "Título é obrigatório"%string)] (CourseModule.titulo m);
       ModuleErrors.limite := z_string [min1 None] (CourseModule.limite m);
       ModuleErrors.valor := optional (z_string []) (CourseModule.valor m);
       ModuleErrors.aviao := optional z_array_string (CourseModule.aviao m) |} in
  if no_module_errors e then None else Some e.

(** The error array is as long as the last index with an issue requires. *)
Definition drop_trailing_holes {A} (l : list (option A)) : list (option A) :=
  fold_right
    (fun x acc =>
       match x, acc with
       | None, [] => []
       | _, _ => x :: acc
       end)
    [] l.

(** [z.array(moduleSchema)]. *)
Definition z_array_modules (x : js (list CourseModule.t)) : ModulosErrors :=
  match x with
  | val l =>
      match drop_trailing_holes (map moduleSchema l) with
      | [] => modulos_ok
      | es => modulos_entries es
      end
  | _ => modulos_field_error {| code := invalid_type; message := None |}
  end.

Definition sn : list jsstring := [lit "s"; lit "n"].

(** The [parcelas] rule of [courseSchema]. *)
Definition parcelas_schema : js jsstring -> option FieldError :=
  z_string
    [min1 (Some "Parcelas é obrigatório"%string);
     refine
       (fun s => test_all is_digit (trim s) && number_ge (parseInt10 (trim s)) 1)
       "Parcelas deve ser inteiro >= 1"%string].

Section Schema.

(** [currencyRemoveMaskToNumber], imported from the mask library. *)
Variable currencyRemoveMaskToNumber : jsstring -> number.

Definition courseSchema (v : CoursePayload.t) : Errors.t :=
  {| Errors.nome :=
       z_string [min1 (Some "Nome interno é obrigatório"%string)]
         (CoursePayload.nome v);
     Errors.titulo :=
       z_string [min1 (Some "Título é obrigatório"%string)]
         (CoursePayload.titulo v);
     Errors.ativo := optional (z_enum sn None) (CoursePayload.ativo v);
     Errors.destaque := optional (z_enum sn None) (CoursePayload.destaque v);
     Errors.publicar := optional (z_enum sn None) (CoursePayload.publicar v);
     Errors.duracao :=
       z_string
         [min1 (Some "Duração é obrigatória"%string);
          refine (fun s => test_all is_digit (trim s))
            "Duração deve ser um número inteiro"%string]
         (CoursePayload.duracao v);
     Errors.unidade_duracao :=
       z_enum [lit "Hrs"; lit "Min"] (Some "Unidade é obrigatória"%string)
         (CoursePayload.unidade_duracao v);
     Errors.tipo :=
       z_string [min1 (Some "Tipo é obrigatório"%string)] (CoursePayload.tipo v);
     Errors.categoria :=
       z_string [min1 (Some "Categoria é obrigatória"%string)]
         (CoursePayload.categoria v);
     Errors.inscricao :=
       z_string
         [refine (fun s => number_ge (currencyRemoveMaskToNumber s) 0)
            "Inscrição inválida"%string]
         (CoursePayload.inscricao v);
     Errors.valor :=
       z_string
         [refine (fun s => number_ge (currencyRemoveMaskToNumber s) 0)
            "Valor inválido"%string]
         (CoursePayload.valor v);
     Errors.parcelas := parcelas_schema (CoursePayload.parcelas v);
     Errors.valor_parcela :=
       z_string
         [refine (fun s => number_ge (currencyRemoveMaskToNumber s) 0)
            "Valor da parcela inválido"%string]
         (CoursePayload.valor_parcela v);
     Errors.aeronaves := optional z_array_string (CoursePayload.aeronaves v);
     Errors.modulos := z_array_modules (CoursePayload.modulos v) |}.

End Schema.

Definition is_none {A} (o : option A) : bool :=
  match o with
  | None => true
  | Some _ => false
  end.

(** The error map is empty. *)
Definition isEmptyObject (e : Errors.t) : bool :=
  is_none (Errors.nome e) && is_none (Errors.titulo e)
  && is_none (Errors.ativo e) && is_none (Errors.destaque e)
  && is_none (Errors.publicar e) && is_none (Errors.duracao e)
  && is_none (Errors.unidade_duracao e) && is_none (Errors.tipo e)
  && is_none (Errors.categoria e) && is_none (Errors.inscricao e)
  && is_none (Errors.valor e) && is_none (Errors.parcelas e)
  && is_none (Errors.valor_parcela e) && is_none (Errors.aeronaves e)
  && match Errors.modulos e with
     | modulos_ok => true
     | _ => false
     end.

(** *** [onInvalid] and submission *)

Record Toast : Type :=
  { title : string; description : string; variant : string }.

(** [Array.isArray(errors?.modulos) && errors.modulos.some((e) => e?.titulo)];
    [some] does not visit empty slots. *)
Definition hasModuleTitleError (errors : Errors.t) : bool :=
  match Errors.modulos errors with
  | modulos_entries entries =>
      existsb
        (fun e =>
           match e with
           | Some me => negb (is_none (ModuleErrors.titulo me))
           | None => false
           end)
        entries
  | _ => false
  end.

Definition module_title_message : string :=
  "Preencha o título em todos os módulos."%string.
Definition generic_message : string := "Verifique os campos obrigatórios."%string.

(** [onInvalid].  The callback takes no argument: [errors] stands for
    [form.formState.errors] as the callback finds it. *)
Definition onInvalid (errors : Errors.t) : Toast :=
  {| title := "Erro de validação"%string;
     description :=
       if hasModuleTitleError errors then module_title_message
       else generic_message;
     variant := "destructive"%string |}.

Inductive SubmitResult : Type :=
| Submitted (data : CoursePayload.t)
| Rejected (errors : Errors.t) (toast : Toast).

(** The data handed to [onSubmit]: the schema does not declare [config], and
    an object schema drops the keys it does not declare. *)
Definition parsed (v : CoursePayload.t) : CoursePayload.t :=
  {| CoursePayload.nome := CoursePayload.nome v;
     CoursePayload.titulo := CoursePayload.titulo v;
     CoursePayload.ativo := CoursePayload.ativo v;
     CoursePayload.destaque := CoursePayload.destaque v;
     CoursePayload.publicar := CoursePayload.publicar v;
     CoursePayload.duracao := CoursePayload.duracao v;
     CoursePayload.unidade_duracao := CoursePayload.unidade_duracao v;
     CoursePayload.tipo := CoursePayload.tipo v;
     CoursePayload.categoria := CoursePayload.categoria v;
     CoursePayload.config := undefined;
     CoursePayload.inscricao := CoursePayload.inscricao v;
     CoursePayload.valor := CoursePayload.valor v;
     CoursePayload.parcelas := CoursePayload.parcelas v;
     CoursePayload.valor_parcela := CoursePayload.valor_parcela v;
     CoursePayload.aeronaves := CoursePayload.aeronaves v;
     CoursePayload.modulos := CoursePayload.modulos v |}.

(** [formState.errors] of a form on which no validation has left an issue:
    a new form, or a form just reset. *)
Definition no_errors : Errors.t :=
  {| Errors.nome := None;
     Errors.titulo := None;
     Errors.ativo := None;
     Errors.destaque := None;
     Errors.publicar := None;
     Errors.duracao := None;
     Errors.unidade_duracao := None;
     Errors.tipo := None;
     Errors.categoria := None;
     Errors.inscricao := None;
     Errors.valor := None;
     Errors.parcelas := None;
     Errors.valor_parcela := None;
     Errors.aeronaves := None;
     Errors.modulos := modulos_ok |}.

(** [form.handleSubmit(handleSubmit, onInvalid)] on the current values.
    The resolver validates them; without issues the parsed data goes to
    [onSubmit]; otherwise [onInvalid] runs and the new error map is stored
    in the form state afterwards.  [formState_errors] is the error map the
    form state holds when the submission starts, left there by the last
    render: it is the one [onInvalid] reads through [form.formState.errors],
    since the map of the validation that has just failed reaches the form
    state only once the callback has returned.  [Rejected] carries that new
    map and the toast shown. *)
Definition submit (currencyRemoveMaskToNumber : jsstring -> number)
    (formState_errors : Errors.t) (values : CoursePayload.t) : SubmitResult :=
  let errors := courseSchema currencyRemoveMaskToNumber values in
  if isEmptyObject errors then Submitted (parsed values)
  else Rejected errors (onInvalid formState_errors).

(** [formState.errors] once the submission is over. *)
Definition errors_after (r : SubmitResult) : Errors.t :=
  match r with
  | Submitted _ => no_errors
  | Rejected errors _ => errors
  end.

(** "Some module entry has a missing-title error", on the error map. *)
Definition module_title_error_at (errors : Errors.t) (i : nat) : Prop :=
  exists entries me fe,
    Errors.modulos errors = modulos_entries entries
    /\ nth_error entries i = Some (Some me)
    /\ ModuleErrors.titulo me = Some fe.

(** *** The [parcelas] input *)

(** The [onChange] handler: the digits kept from the typed text, stored with
    [form.setValue('parcelas', onlyDigits, { shouldValidate: true })]. *)
Definition onlyDigits (value : jsstring) : jsstring :=
  replace_class (fun c => negb (is_digit c)) (lit "") value.

Definition setValue_parcelas (s : jsstring) (v : CoursePayload.t)
    : CoursePayload.t :=
  {| CoursePayload.nome := CoursePayload.nome v;
     CoursePayload.titulo := CoursePayload.titulo v;
     CoursePayload.ativo := CoursePayload.ativo v;
     CoursePayload.destaque := CoursePayload.destaque v;
     CoursePayload.publicar := CoursePayload.publicar v;
     CoursePayload.duracao := CoursePayload.duracao v;
     CoursePayload.unidade_duracao := CoursePayload.unidade_duracao v;
     CoursePayload.tipo := CoursePayload.tipo v;
     CoursePayload.categoria := CoursePayload.categoria v;
     CoursePayload.config := CoursePayload.config v;
     CoursePayload.inscricao := CoursePayload.inscricao v;
     CoursePayload.valor := CoursePayload.valor v;
     CoursePayload.parcelas := val s;
     CoursePayload.valor_parcela := CoursePayload.valor_parcela v;
     CoursePayload.aeronaves := CoursePayload.aeronaves v;
     CoursePayload.modulos := CoursePayload.modulos v |}.

Definition parcelas_onChange (value : jsstring) (v : CoursePayload.t)
    : CoursePayload.t :=
  setValue_parcelas (onlyDigits value) v.

(** *** Module rows ([addModule], [removeModule], the per-row errors) *)

Definition setValue_modulos (l : list CourseModule.t) (v : CoursePayload.t)
    : CoursePayload.t :=
  {| CoursePayload.nome := CoursePayload.nome v;
     CoursePayload.titulo := CoursePayload.titulo v;
     CoursePayload.ativo := CoursePayload.ativo v;
     CoursePayload.destaque := CoursePayload.destaque v;
     CoursePayload.publicar := CoursePayload.publicar v;
     CoursePayload.duracao := CoursePayload.duracao v;
     CoursePayload.unidade_duracao := CoursePayload.unidade_duracao v;
     CoursePayload.tipo := CoursePayload.tipo v;
     CoursePayload.categoria := CoursePayload.categoria v;
     CoursePayload.config := CoursePayload.config v;
     CoursePayload.inscricao := CoursePayload.inscricao v;
     CoursePayload.valor := CoursePayload.valor v;
     CoursePayload.parcelas := CoursePayload.parcelas v;
     CoursePayload.valor_parcela := CoursePayload.valor_parcela v;
     CoursePayload.aeronaves := CoursePayload.aeronaves v;
     CoursePayload.modulos := val l |}.

Definition addModule (v : CoursePayload.t) : CoursePayload.t :=
  let current := nullish (CoursePayload.modulos v) [] in
  let next :=
    {| CourseModule.etapa := val (lit "etapa1");
       CourseModule.titulo := val (lit "");
       CourseModule.limite := val (lit "1");
       CourseModule.valor := val (lit "");
       CourseModule.aviao := undefined |} in
  setValue_modulos (current ++ [next]) v.

(** [removeModule(index)], [index] being the position of a rendered row. *)
Definition removeModule (index : nat) (v : CoursePayload.t) : CoursePayload.t :=
  let current := nullish (CoursePayload.modulos v) [] in
  setValue_modulos (splice1 index current) v.

(** [errors.modulos?.[idx]], as the row at position [idx] reads it to show
    its messages. *)
Definition modulos_error_at (errors : Errors.t) (idx : nat)
    : option ModuleErrors.t :=
  match Errors.modulos errors with
  | modulos_entries entries =>
      match nth_error entries idx with
      | Some (Some e) => Some e
      | _ => None
      end
  | _ => None
  end.

(** *** Aircraft selection (the badges and [ModuleAircraftSelect]) *)

Definition setValue_aeronaves (l : list jsstring) (v : CoursePayload.t)
    : CoursePayload.t :=
  {| CoursePayload.nome := CoursePayload.nome v;
     CoursePayload.titulo := CoursePayload.titulo v;
     CoursePayload.ativo := CoursePayload.ativo v;
     CoursePayload.destaque := CoursePayload.destaque v;
     CoursePayload.publicar := CoursePayload.publicar v;
     CoursePayload.duracao := CoursePayload.duracao v;
     CoursePayload.unidade_duracao := CoursePayload.unidade_duracao v;
     CoursePayload.tipo := CoursePayload.tipo v;
     CoursePayload.categoria := CoursePayload.categoria v;
     CoursePayload.config := CoursePayload.config v;
     CoursePayload.inscricao := CoursePayload.inscricao v;
     CoursePayload.valor := CoursePayload.valor v;
     CoursePayload.parcelas := CoursePayload.parcelas v;
     CoursePayload.valor_parcela := CoursePayload.valor_parcela v;
     CoursePayload.aeronaves := val l;
     CoursePayload.modulos := CoursePayload.modulos v |}.

(** The [onClick] of the badge of the aircraft [a_id]: [selected] is what
    the badge was rendered with. *)
Definition badge_onClick (a_id : jsstring) (v : CoursePayload.t)
    : CoursePayload.t :=
  let selected := includes (nullish (CoursePayload.aeronaves v) []) a_id in
  let curr := new_Set (nullish (CoursePayload.aeronaves v) []) in
  setValue_aeronaves
    (Array_from (if selected then set_delete curr a_id else set_add curr a_id))
    v.

(** The state a checkbox reports: a boolean or ['indeterminate']. *)
Inductive CheckedState : Type :=
| checked (b : bool)
| indeterminate.

(** [if (c)]: only [false] is falsy. *)
Definition truthy_checked (c : CheckedState) : bool :=
  match c with
  | checked b => b
  | indeterminate => true
  end.

(** The [onCheckedChange] of the checkbox of the aircraft [a_id] in
    [ModuleAircraftSelect]: the list handed to [onChange]. *)
Definition onCheckedChange (value : list jsstring) (a_id : jsstring)
    (c : CheckedState) : list jsstring :=
  let next := new_Set value in
  Array_from (if truthy_checked c then set_add next a_id
              else set_delete next a_id).

(** *** Sample records *)

(** A loaded record whose [config] supplies every leaf except
    [pagina_venda.label]. *)
Definition only_link : CoursePayload.t :=
  {| CoursePayload.nome := val (lit "PPA");
     CoursePayload.titulo := val (lit "Piloto Privado");
     CoursePayload.ativo := val (lit "s");
     CoursePayload.destaque := val (lit "n");
     CoursePayload.publicar := val (lit "s");
     CoursePayload.duracao := val (lit "40");
     CoursePayload.unidade_duracao := val (lit "Hrs");
     CoursePayload.tipo := val (lit "2");
     CoursePayload.categoria := val (lit "cursos_online");
     CoursePayload.config :=
       val {| proximo_curso := val (lit "");
              gratis := val (lit "n");
              comissao := val (lit "3,00");
              tx2 := val [ {| name_label := lit "taxa"; name_valor := lit "10,00" |} ];
              tipo_desconto_taxa := val (lit "v");
              desconto_taxa := val (lit "");
              pagina_divulgacao := val (lit "");
              video := val (lit "");
              pagina_venda :=
                val {| link := val (lit "https://example.com/ppa");
                       label := undefined |};
              adc := val default_adc;
              ead := val default_ead |};
     CoursePayload.inscricao := val (lit "0,00");
     CoursePayload.valor := val (lit "900,00");
     CoursePayload.parcelas := val (lit "1");
     CoursePayload.valor_parcela := val (lit "900,00");
     CoursePayload.aeronaves := val [];
     CoursePayload.modulos := val [] |}.

(** The module row that [addModule] appends: its title is still empty. *)
Definition blank_module : CourseModule.t :=
  {| CourseModule.etapa := val (lit "etapa1");
     CourseModule.titulo := val (lit "");
     CourseModule.limite := val (lit "1");
     CourseModule.valor := val (lit "");
     CourseModule.aviao := undefined |}.

(** The default values with one such row added. *)
Definition untitled_course : CoursePayload.t :=
  {| CoursePayload.nome := val (lit "");
     CoursePayload.titulo := val (lit "");
     CoursePayload.ativo := val (lit "s");
     CoursePayload.destaque := val (lit "n");
     CoursePayload.publicar := val (lit "s");
     CoursePayload.duracao := val (lit "0");
     CoursePayload.unidade_duracao := val (lit "Hrs");
     CoursePayload.tipo := val (lit "2");
     CoursePayload.categoria := val (lit "cursos_online");
     CoursePayload.config := val default_config;
     CoursePayload.inscricao := val (lit "0,00");
     CoursePayload.valor := val (lit "0,00");
     CoursePayload.parcelas := val (lit "1");
     CoursePayload.valor_parcela := val (lit "0,00");
     CoursePayload.aeronaves := val [];
     CoursePayload.modulos := val [blank_module] |}.

End CourseForm.

(** ** The CMS component form ([SiteComponentsForm]) *)

Module SiteComponentsForm.
Import JS.

(** *** The gallery discriminator and the listing query *)

(** [String(x)] on a string. *)
Definition ToString (s : jsstring) : jsstring := s.

(** [String(form.watch('tipo_conteudo') ?? '')]. *)
Definition selectedTypeValue (tipo_conteudo : js jsstring) : jsstring :=
  ToString (nullish tipo_conteudo (lit "")).

Definition isGallery (selectedTypeValue : jsstring) : bool :=
  str_eqb (ToString selectedTypeValue) (lit "19")
  || number_is_19 (Number selectedTypeValue).

(** The option of [uploadsQuery] that gates its fetches. *)
Definition uploadsQuery_enabled (tipo_conteudo : js jsstring) : bool :=
  isGallery (selectedTypeValue tipo_conteudo).

(** *** The [short_code] input *)

(** The [onChange] handler: the value handed to [field.onChange]. *)
Definition short_code_onChange (value : jsstring) : jsstring :=
  replace_class_plus is_ws (lit "_") value.

(** The maximal runs of a string: consecutive code units that are all
    white space or all not white space, each run tagged with its kind. *)
Fixpoint runs (s : jsstring) : list (bool * jsstring) :=
  match s with
  | [] => []
  | c :: r =>
      match runs r with
      | (w, run) :: rest =>
          if Bool.eqb w (is_ws c) then (w, c :: run) :: rest
          else (is_ws c, [c]) :: (w, run) :: rest
      | [] => [(is_ws c, [c])]
      end
  end.

(** Neighbouring pieces are of different kinds. *)
Fixpoint alternating (l : list (bool * jsstring)) : Prop :=
  match l with
  | a :: ((b :: _) as rest) => fst a <> fst b /\ alternating rest
  | _ => True
  end.

(** The claim's wording: every maximal run of white space becomes a single
    underscore, everything else is kept. *)
Definition collapse_runs (s : jsstring) : jsstring :=
  flat_map (fun wr : bool * jsstring => if fst wr then lit "_" else snd wr)
    (runs s).

(** A code unit that is neither white space nor an underscore. *)
Definition other (c : N) : bool := negb (is_ws c) && negb (c =? 95).

(** *** The upload handler ([handleFilesDrop]) *)

Record File : Type := { name : jsstring; blob : N }.

Definition ObjectURL : Type := N.

(** An entry of [localPreviews]. *)
Record Preview : Type := { url : ObjectURL; preview_name : jsstring }.

(** A thrown value, as the [catch] block reads it: [err?.body?.message] and
    [err?.message]. *)
Record Body : Type := { body_message : js jsstring }.
Record ErrorObject : Type := { body : js Body; message : js jsstring }.
Definition Thrown : Type := js ErrorObject.

Record Toast : Type :=
  { title : jsstring; description : jsstring; variant : jsstring }.

(** The component state ([localPreviews], [isUploading]) together with the
    parts of the environment the handler acts on. *)
Record World : Type :=
  { localPreviews : list Preview;
    isUploading : bool;
    next_object_url : ObjectURL;        (* the next handle to be handed out *)
    created_urls : list ObjectURL;      (* URL.createObjectURL results *)
    revoked_urls : list ObjectURL;      (* URL.revokeObjectURL arguments *)
    upload_calls : list File;           (* uploadFile calls, in order *)
    uploaded : list File;               (* the calls that resolved *)
    refetches : nat;                    (* uploadsQuery.refetch calls *)
    toasts : list Toast }.

(** An asynchronous computation: it transforms the world and completes
    normally or by throwing. *)
Inductive Completion (A : Type) : Type :=
| Normal (a : A)
| Throw (err : Thrown).
Arguments Normal {A} a.
Arguments Throw {A} err.

Definition Async (A : Type) : Type := World -> World * Completion A.

Definition ret {A} (a : A) : Async A := fun w => (w, Normal a).

Definition bind {A B} (m : Async A) (k : A -> Async B) : Async B :=
  fun w =>
    match m w with
    | (w', Normal a) => k a w'
    | (w', Throw e) => (w', Throw e)
    end.

Notation "x <- m ;; k" := (bind m (fun x => k))
  (at level 61, m at next level, right associativity).
Notation "m ;; k" := (bind m (fun _ => k))
  (at level 61, right associativity).

(** [try { body } catch (err) { handler } finally { finalizer }]. *)
Definition try_catch_finally {A} (body : Async A) (handler : Thrown -> Async A)
    (finalizer : Async unit) : Async A :=
  fun w =>
    let (w1, c1) := body w in
    let (w2, c2) :=
      match c1 with
      | Normal a => (w1, Normal a)
      | Throw e => handler e w1
      end in
    match finalizer w2 with
    | (w3, Normal _) => (w3, c2)
    | (w3, Throw e) => (w3, Throw e)
    end.

(** [for (const x of l) { await f(x) }]. *)
Fixpoint for_of {A} (l : list A) (f : A -> Async unit) : Async unit :=
  match l with
  | [] => ret tt
  | x :: r => f x ;; for_of r f
  end.

(** [l.map(f)] for an effectful [f]. *)
Fixpoint map_of {A B} (l : list A) (f : A -> Async B) : Async (list B) :=
  match l with
  | [] => ret []
  | x :: r => y <- f x ;; ys <- map_of r f ;; ret (y :: ys)
  end.

Definition setIsUploading (b : bool) : Async unit :=
  fun w =>
    ({| localPreviews := localPreviews w; isUploading := b;
        next_object_url := next_object_url w;
        created_urls := created_urls w; revoked_urls := revoked_urls w;
        upload_calls := upload_calls w; uploaded := uploaded w;
        refetches := refetches w; toasts := toasts w |}, Normal tt).

(** [URL.createObjectURL(f)]: a handle not handed out before. *)
Definition createObjectURL (f : File) : Async ObjectURL :=
  fun w =>
    let u := next_object_url w in
    ({| localPreviews := localPreviews w; isUploading := isUploading w;
        next_object_url := u + 1;
        created_urls := created_urls w ++ [u]; revoked_urls := revoked_urls w;
        upload_calls := upload_calls w; uploaded := uploaded w;
        refetches := refetches w; toasts := toasts w |}, Normal u).

(** [setLocalPreviews((prev) => [...prev, ...previews])]. *)
Definition appendLocalPreviews (previews : list Preview) : Async unit :=
  fun w =>
    ({| localPreviews := localPreviews w ++ previews;
        isUploading := isUploading w;
        next_object_url := next_object_url w;
        created_urls := created_urls w; revoked_urls := revoked_urls w;
        upload_calls := upload_calls w; uploaded := uploaded w;
        refetches := refetches w; toasts := toasts w |}, Normal tt).

(** [setLocalPreviews((prev) => { prev.forEach((p) =>
    URL.revokeObjectURL(p.url)); return []; })]. *)
Definition revokeLocalPreviews : Async unit :=
  fun w =>
    ({| localPreviews := [];
        isUploading := isUploading w;
        next_object_url := next_object_url w;
        created_urls := created_urls w;
        revoked_urls := revoked_urls w ++ map url (localPreviews w);
        upload_calls := upload_calls w; uploaded := uploaded w;
        refetches := refetches w; toasts := toasts w |}, Normal tt).

Definition toast (t : Toast) : Async unit :=
  fun w =>
    ({| localPreviews := localPreviews w; isUploading := isUploading w;
        next_object_url := next_object_url w;
        created_urls := created_urls w; revoked_urls := revoked_urls w;
        upload_calls := upload_calls w; uploaded := uploaded w;
        refetches := refetches w; toasts := toasts w ++ [t] |}, Normal tt).

(** [err?.body?.message || err?.message || 'Falha ao enviar arquivo.']. *)
Definition apiMsg (err : Thrown) : jsstring :=
  or_str (chain (chain err body) body_message)
    (or_str (chain err message) (lit "Falha ao enviar arquivo.")).

Section Handler.

(** The route parameter [id]. *)
Variable id : js jsstring.

(** The upload store: whether the call for a file resolves ([None]) or
    throws, given the calls made before it and the metadata passed. *)
Variable uploadsService_uploadFile :
  list File -> File -> js jsstring -> option Thrown.

(** [uploadsQuery.refetch()]: whether it resolves or throws, given the
    number of earlier refetches. *)
Variable uploadsQuery_refetch : nat -> option Thrown.

(** [id ? { id_componente: id } : undefined]. *)
Definition meta : js jsstring :=
  if truthy_str id then id else undefined.

(** [await uploadsService.uploadFile(file, meta)]. *)
Definition uploadFile (file : File) : Async unit :=
  fun w =>
    let w' ok :=
      {| localPreviews := localPreviews w; isUploading := isUploading w;
         next_object_url := next_object_url w;
         created_urls := created_urls w; revoked_urls := revoked_urls w;
         upload_calls := upload_calls w ++ [file];
         uploaded := if ok : bool then uploaded w ++ [file] else uploaded w;
         refetches := refetches w; toasts := toasts w |} in
    match uploadsService_uploadFile (upload_calls w) file meta with
    | None => (w' true, Normal tt)
    | Some e => (w' false, Throw e)
    end.

(** [await uploadsQuery.refetch()]. *)
Definition refetch : Async unit :=
  fun w =>
    let w' :=
      {| localPreviews := localPreviews w; isUploading := isUploading w;
         next_object_url := next_object_url w;
         created_urls := created_urls w; revoked_urls := revoked_urls w;
         upload_calls := upload_calls w; uploaded := uploaded w;
         refetches := S (refetches w); toasts := toasts w |} in
    match uploadsQuery_refetch (refetches w) with
    | None => (w', Normal tt)
    | Some e => (w', Throw e)
    end.

Definition handleFilesDrop (files : list File) : Async unit :=
  let arr := files in
  if (length arr =? 0)%nat then ret tt
  else
    setIsUploading true ;;
    try_catch_finally
      (previews <-
         map_of arr
           (fun f =>
              u <- createObjectURL f ;;
              ret {| url := u; preview_name := name f |}) ;;
       appendLocalPreviews previews ;;
       for_of arr (fun file => uploadFile file) ;;
       refetch)
      (fun err =>
         toast {| title := lit "Falha no upload";
                  description := ToString (apiMsg err);
                  variant := lit "destructive" |})
      (revokeLocalPreviews ;; setIsUploading false).

End Handler.

(** The outcome of an upload call of the handler, as a function of the
    earlier calls. *)
Definition upload_outcome (id : js jsstring)
    (up : list File -> File -> js jsstring -> option Thrown)
    (calls : list File) (f : File) : option Thrown :=
  up calls f (meta id).

(** The first call of a batch that throws: its position in the batch and
    the thrown value, [None] when every call resolves.  [calls] are the
    upload calls made before the batch. *)
Fixpoint first_failure (uploadFile_outcome : list File -> File -> option Thrown)
    (calls : list File) (files : list File) : option (nat * Thrown) :=
  match files with
  | [] => None
  | f :: r =>
      match uploadFile_outcome calls f with
      | Some e => Some (O, e)
      | None =>
          match first_failure uploadFile_outcome (calls ++ [f]) r with
          | Some (k, e) => Some (S k, e)
          | None => None
          end
      end
  end.

(** The claim's wording of the notification text: the message supplied by
    the server in the response body if there is one, else the error's own
    message, else the generic text.  A message is there when it is a
    non-empty string. *)
Inductive most_specific_message (err : Thrown) : jsstring -> Prop :=
| server_message (m : jsstring) :
    chain (chain err body) body_message = val m -> m <> [] ->
    most_specific_message err m
| error_message (m : jsstring) :
    truthy_str (chain (chain err body) body_message) = false ->
    chain err message = val m -> m <> [] ->
    most_specific_message err m
| generic_message :
    truthy_str (chain (chain err body) body_message) = false ->
    truthy_str (chain err message) = false ->
    most_specific_message err (lit "Falha ao enviar arquivo.").

(** The notification raised for a thrown value. *)
Definition failure_toast (err : Thrown) : Toast :=
  {| title := lit "Falha no upload";
     description := apiMsg err;
     variant := lit "destructive" |}.

(** *** The page over time: selecting a type, dropping files, uploads settling

    [handleFilesDrop] is asynchronous: it runs until its next [await], and
    resumes when the awaited promise settles.  In between, the user may
    select another content type or drop another batch (the drop zone is
    dimmed while uploading, not disabled).  A run of the handler that is
    suspended is kept as the [await] it is suspended at. *)

Inductive Awaiting : Type :=
| await_uploadFile (file : File) (rest : list File)
    (* in [await uploadsService.uploadFile(file, ...)]; [rest] are the
       files of the loop still to come *)
| await_refetch.
    (* in [await uploadsQuery.refetch()] *)

Inductive Outcome : Type :=
| resolved
| threw (err : Thrown).

Record Page : Type :=
  { tipo_conteudo : js jsstring;          (* the form value *)
    world : World;
    running : list Awaiting;              (* the suspended runs *)
    refetched_under : list (js jsstring)  (* [tipo_conteudo] at each
                                             [uploadsQuery.refetch()] call *) }.

Inductive Event : Type :=
| select_type (v : jsstring)       (* the Select's [onValueChange] *)
| drop (files : list File)         (* [onDrop], or the file input's [onChange] *)
| settle (i : nat) (o : Outcome).  (* the promise awaited by the run at
                                      position [i] settles *)

Definition exec (m : Async unit) (w : World) : World := fst (m w).

(** The request of [uploadsService.uploadFile(file, ...)] goes out. *)
Definition call_uploadFile (file : File) (w : World) : World :=
  {| localPreviews := localPreviews w; isUploading := isUploading w;
     next_object_url := next_object_url w;
     created_urls := created_urls w; revoked_urls := revoked_urls w;
     upload_calls := upload_calls w ++ [file]; uploaded := uploaded w;
     refetches := refetches w; toasts := toasts w |}.

(** The call for [file] has resolved. *)
Definition stored (file : File) (w : World) : World :=
  {| localPreviews := localPreviews w; isUploading := isUploading w;
     next_object_url := next_object_url w;
     created_urls := created_urls w; revoked_urls := revoked_urls w;
     upload_calls := upload_calls w; uploaded := uploaded w ++ [file];
     refetches := refetches w; toasts := toasts w |}.

(** The request of [uploadsQuery.refetch()] goes out. *)
Definition call_refetch (w : World) : World :=
  {| localPreviews := localPreviews w; isUploading := isUploading w;
     next_object_url := next_object_url w;
     created_urls := created_urls w; revoked_urls := revoked_urls w;
     upload_calls := upload_calls w; uploaded := uploaded w;
     refetches := S (refetches w); toasts := toasts w |}.

(** The [catch] block and the [finally] block of the handler. *)
Definition on_catch (err : Thrown) : Async unit :=
  toast {| title := lit "Falha no upload";
           description := ToString (apiMsg err);
           variant := lit "destructive" |}.

Definition on_finally : Async unit :=
  revokeLocalPreviews ;; setIsUploading false.

(** Leaving the [try]: normally, or through [catch]; then [finally]. *)
Definition finish (o : Outcome) (w : World) : World :=
  exec on_finally
    match o with
    | resolved => w
    | threw err => exec (on_catch err) w
    end.

(** The handler from its start to its first [await]. *)
Definition start (files : list File) (p : Page) : Page :=
  match files with
  | [] => p
  | file :: rest =>
      let w1 := exec (setIsUploading true) (world p) in
      match
        (previews <-
           map_of files
             (fun f =>
                u <- createObjectURL f ;;
                ret {| url := u; preview_name := name f |}) ;;
         appendLocalPreviews previews) w1
      with
      | (w2, Normal _) =>
          {| tipo_conteudo := tipo_conteudo p;
             world := call_uploadFile file w2;
             running := running p ++ [await_uploadFile file rest];
             refetched_under := refetched_under p |}
      | (w2, Throw err) =>
          {| tipo_conteudo := tipo_conteudo p;
             world := finish (threw err) w2;
             running := running p;
             refetched_under := refetched_under p |}
      end
  end.

(** Leaving the [try] with the completion of its body. *)
Definition leave (r : World * Completion unit) : World :=
  finish
    match snd r with
    | Normal _ => resolved
    | Throw err => threw err
    end
    (fst r).

Definition replace_at {A} (i : nat) (x : A) (l : list A) : list A :=
  firstn i l ++ x :: skipn (S i) l.

(** The run at position [i] resumes with the outcome of what it awaited. *)
Definition resume (i : nat) (a : Awaiting) (o : Outcome) (p : Page) : Page :=
  match a, o with
  | await_uploadFile file (next :: rest), resolved =>
      {| tipo_conteudo := tipo_conteudo p;
         world := call_uploadFile next (stored file (world p));
         running := replace_at i (await_uploadFile next rest) (running p);
         refetched_under := refetched_under p |}
  | await_uploadFile file [], resolved =>
      {| tipo_conteudo := tipo_conteudo p;
         world := call_refetch (stored file (world p));
         running := replace_at i await_refetch (running p);
         refetched_under := refetched_under p ++ [tipo_conteudo p] |}
  | await_uploadFile _ _, threw err
  | await_refetch, threw err =>
      {| tipo_conteudo := tipo_conteudo p;
         world := finish (threw err) (world p);
         running := splice1 i (running p);
         refetched_under := refetched_under p |}
  | await_refetch, resolved =>
      {| tipo_conteudo := tipo_conteudo p;
         world := finish resolved (world p);
         running := splice1 i (running p);
         refetched_under := refetched_under p |}
  end.

(** One event.  The drop zone and the file input exist only while the
    gallery card is rendered, that is under [isGallery]. *)
Definition step (ev : Event) (p : Page) : Page :=
  match ev with
  | select_type v =>
      {| tipo_conteudo := val v;
         world := world p;
         running := running p;
         refetched_under := refetched_under p |}
  | drop files =>
      if isGallery (selectedTypeValue (tipo_conteudo p)) then start files p
      else p
  | settle i o =>
      match nth_error (running p) i with
      | Some a => resume i a o p
      | None => p
      end
  end.

Definition run (trace : list Event) (p : Page) : Page :=
  fold_left (fun p ev => step ev p) trace p.

(** One run of the handler on its own, nothing happening in between: after
    the drop, each awaited promise settles as the store and the query
    decide.  The store is asked about the calls made before the one in
    flight, the query about the refetches made before the one in flight. *)
Definition settles_as (id : js jsstring)
    (up : list File -> File -> js jsstring -> option Thrown)
    (rf : nat -> option Thrown) (a : Awaiting) (w : World) : Outcome :=
  match a with
  | await_uploadFile file _ =>
      match up (removelast (upload_calls w)) file (meta id) with
      | None => resolved
      | Some err => threw err
      end
  | await_refetch =>
      match rf (pred (refetches w)) with
      | None => resolved
      | Some err => threw err
      end
  end.

Fixpoint alone (id : js jsstring)
    (up : list File -> File -> js jsstring -> option Thrown)
    (rf : nat -> option Thrown) (fuel : nat) (p : Page) : Page :=
  match fuel with
  | O => p
  | S fuel' =>
      match running p with
      | a :: _ =>
          alone id up rf fuel' (step (settle 0 (settles_as id up rf a (world p))) p)
      | [] => p
      end
  end.

(** *** The component record, the form values and the schema *)

(** A value the API may send as a string or as a number. *)
Inductive StringOrNumber : Type :=
| a_string (s : jsstring)
| a_number (x : number).

Module ComponentRecord.
Record t : Type :=
  { nome : js jsstring;
    tipo_conteudo : js jsstring;
    ordenar : js StringOrNumber;
    short_code : js jsstring;
    id_curso : js jsstring;
    ativo : js jsstring;
    obs : js jsstring }.
End ComponentRecord.

Module FormData.
Record t : Type :=
  { nome : js jsstring;
    tipo_conteudo : js jsstring;
    ordenar : js jsstring;
    short_code : js jsstring;
    id_curso : js jsstring;
    ativo : js jsstring;
    obs : js jsstring }.
End FormData.

Module FormErrors.
Record t : Type :=
  { nome : option CourseForm.FieldError;
    tipo_conteudo : option CourseForm.FieldError;
    ordenar : option CourseForm.FieldError;
    short_code : option CourseForm.FieldError;
    id_curso : option CourseForm.FieldError;
    ativo : option CourseForm.FieldError;
    obs : option CourseForm.FieldError }.
End FormErrors.

(** [String(x)] on a possibly missing string, as [z.coerce.string()]
    applies it. *)
Definition coerce_string (x : js jsstring) : jsstring :=
  match x with
  | val s => s
  | null => lit "null"
  | undefined => lit "undefined"
  end.

(** [z.coerce.string()]. *)
Definition z_coerce_string (x : js jsstring) : option CourseForm.FieldError :=
  CourseForm.z_string [] (val (coerce_string x)).

(** [.default(d)]: [undefined] is replaced by [d] before the check. *)
Definition with_default (d : jsstring)
    (schema : js jsstring -> option CourseForm.FieldError) (x : js jsstring)
    : option CourseForm.FieldError :=
  match x with
  | undefined => schema (val d)
  | _ => schema x
  end.

Definition schema (v : FormData.t) : FormErrors.t :=
  {| FormErrors.nome :=
       CourseForm.z_string
         [CourseForm.min1 (Some "Nome é obrigatório"%string)] (FormData.nome v);
     FormErrors.tipo_conteudo :=
       CourseForm.z_string
         [CourseForm.min1 (Some "Tipo de conteúdo é obrigatório"%string)]
         (FormData.tipo_conteudo v);
     FormErrors.ordenar := CourseForm.optional z_coerce_string (FormData.ordenar v);
     FormErrors.short_code :=
       CourseForm.z_string
         [CourseForm.min1 (Some "Short code é obrigatório"%string)]
         (FormData.short_code v);
     FormErrors.id_curso :=
       CourseForm.optional (CourseForm.z_string []) (FormData.id_curso v);
     FormErrors.ativo :=
       with_default (lit "s") (CourseForm.z_enum CourseForm.sn None)
         (FormData.ativo v);
     FormErrors.obs :=
       CourseForm.optional (CourseForm.z_string []) (FormData.obs v) |}.

(** [field.onChange(normalized)] of the [short_code] input. *)
Definition short_code_field_onChange (value : jsstring) (v : FormData.t)
    : FormData.t :=
  {| FormData.nome := FormData.nome v;
     FormData.tipo_conteudo := FormData.tipo_conteudo v;
     FormData.ordenar := FormData.ordenar v;
     FormData.short_code := val (short_code_onChange value);
     FormData.id_curso := FormData.id_curso v;
     FormData.ativo := FormData.ativo v;
     FormData.obs := FormData.obs v |}.

Section Hydrate.

(** [String(x)] on a number, left to the runtime. *)
Variable NumberToString : number -> jsstring.

Definition String_of (x : StringOrNumber) : jsstring :=
  match x with
  | a_string s => ToString s
  | a_number n => NumberToString n
  end.

(** [hydrateForm]: the effect body, giving the new form values. *)
Definition hydrateForm (record : js ComponentRecord.t) (values : FormData.t)
    : FormData.t :=
  match record with
  | val r =>
      {| FormData.nome := val (or_str (ComponentRecord.nome r) (lit ""));
         FormData.tipo_conteudo :=
           val (or_str (ComponentRecord.tipo_conteudo r) (lit ""));
         FormData.ordenar :=
           val (match ComponentRecord.ordenar r with
                | val x => String_of x
                | _ => lit ""
                end);
         FormData.short_code :=
           val (or_str (ComponentRecord.short_code r) (lit ""));
         FormData.id_curso := val (or_str (ComponentRecord.id_curso r) (lit ""));
         FormData.ativo := val (or_str (ComponentRecord.ativo r) (lit "s"));
         FormData.obs := val (or_str (ComponentRecord.obs r) (lit "")) |}
  | _ => values
  end.

End Hydrate.

(** *** Sample data *)

Definition empty_world : World :=
  {| localPreviews := []; isUploading := false; next_object_url := 0;
     created_urls := []; revoked_urls := []; upload_calls := [];
     uploaded := []; refetches := 0; toasts := [] |}.

Definition photo (n : N) : File := {| name := lit "photo.png"; blob := n |}.

(** A rejection whose body carries the server's message. *)
Definition too_large : Thrown :=
  val {| body := val {| body_message := val (lit "Arquivo muito grande") |};
         message := val (lit "Request failed with status code 413") |}.

(** A store whose second call throws and whose other calls resolve. *)
Definition second_call_fails (calls : list File) (f : File) (m : js jsstring)
    : option Thrown :=
  if (length calls =? 1)%nat then Some too_large else None.

Definition refetch_resolves (n : nat) : option Thrown := None.

(** A page showing the gallery type, with nothing uploaded yet. *)
Definition gallery_page : Page :=
  {| tipo_conteudo := val (lit "19");
     world := empty_world;
     running := [];
     refetched_under := [] |}.

(** A page on which another type is selected and nothing is in flight. *)
Definition other_page : Page :=
  {| tipo_conteudo := val (lit "20");
     world := empty_world;
     running := [];
     refetched_under := [] |}.

(** A store whose every call resolves. *)
Definition always_resolves (calls : list File) (f : File) (m : js jsstring)
    : option Thrown := None.

End SiteComponentsForm.

(* ================================================================== *)
(** * Part II. Properties                                               *)
(* ================================================================== *)

(** ** Facts about the runtime fragment *)

Module JSFacts.
Import JS.

(** Turns boolean comparisons on code units into arithmetic. *)
Ltac bool_arith :=
  repeat
    match goal with
    | H : _ && _ = true |- _ => apply andb_true_iff in H; destruct H
    | H : _ || _ = false |- _ => apply orb_false_iff in H; destruct H
    | H : negb _ = true |- _ => apply negb_true_iff in H
    | H : negb _ = false |- _ => apply negb_false_iff in H
    | H : (_ <=? _) = true |- _ => apply N.leb_le in H
    | H : (_ <=? _) = false |- _ => apply N.leb_gt in H
    | H : (_ =? _) = true |- _ => apply N.eqb_eq in H
    | H : (_ =? _) = false |- _ => apply N.eqb_neq in H
    end.

Lemma str_eqb_eq (a b : jsstring) : str_eqb a b = true <-> a = b.
Proof.
  revert b; induction a as [|x a IH]; intros [|y b]; simpl;
    try (split; [discriminate | discriminate]); try tauto.
  rewrite andb_true_iff, N.eqb_eq, IH.
  split; [intros [-> ->]; reflexivity | intros H; inversion H; auto].
Qed.

Lemma digit_not_ws (c : N) : is_digit c = true -> is_ws c = false.
Proof.
  unfold is_digit, is_ws; intros H; bool_arith.
  repeat (apply orb_false_iff; split);
    try (apply N.eqb_neq; lia);
    apply andb_false_iff;
    ((left; apply N.leb_gt; lia) || (right; apply N.leb_gt; lia)).
Qed.

Lemma snd_span_dropWhile (p : N -> bool) (s : jsstring) :
  snd (span p s) = dropWhile p s.
Proof.
  induction s as [|c r IH]; simpl; [reflexivity|].
  destruct (p c); [|reflexivity].
  destruct (span p r); simpl in *; exact IH.
Qed.

Lemma dropWhile_length (p : N -> bool) (s : jsstring) :
  (length (dropWhile p s) <= length s)%nat.
Proof.
  induction s as [|c r IH]; simpl; [lia|].
  destruct (p c); simpl; lia.
Qed.

Lemma span_all (p : N -> bool) (s : jsstring) :
  forallb p s = true -> span p s = (s, []).
Proof.
  induction s as [|c r IH]; simpl; [reflexivity|].
  intros H; apply andb_true_iff in H; destruct H as [Hc Hr].
  rewrite Hc, (IH Hr); reflexivity.
Qed.

Lemma dropWhile_none (p : N -> bool) (s : jsstring) :
  forallb (fun c => negb (p c)) s = true -> dropWhile p s = s.
Proof.
  destruct s as [|c r]; simpl; [reflexivity|].
  intros H; apply andb_true_iff in H; destruct H as [Hc _].
  apply negb_true_iff in Hc; rewrite Hc; reflexivity.
Qed.

Lemma forallb_rev {A} (p : A -> bool) (l : list A) :
  forallb p (rev l) = forallb p l.
Proof.
  induction l as [|x l IH]; simpl; [reflexivity|].
  rewrite forallb_app, IH; simpl.
  rewrite andb_true_r, andb_comm; reflexivity.
Qed.

Lemma digits_no_ws (s : jsstring) :
  forallb is_digit s = true -> forallb (fun c => negb (is_ws c)) s = true.
Proof.
  rewrite !forallb_forall; intros H c Hc.
  rewrite (digit_not_ws c (H c Hc)); reflexivity.
Qed.

(** [trim] leaves a string of digits alone. *)
Lemma trim_digits (s : jsstring) : forallb is_digit s = true -> trim s = s.
Proof.
  intros H; unfold trim.
  rewrite (dropWhile_none is_ws s (digits_no_ws s H)).
  rewrite dropWhile_none; [apply rev_involutive|].
  rewrite forallb_rev; apply digits_no_ws; exact H.
Qed.

(** [s.replace(/\D/g, '')] keeps exactly the digits, in order. *)
Lemma replace_non_digits (s : jsstring) :
  replace_class (fun c => negb (is_digit c)) (lit "") s = filter is_digit s.
Proof.
  unfold replace_class; induction s as [|c r IH]; simpl; [reflexivity|].
  rewrite IH; destruct (is_digit c); reflexivity.
Qed.

Lemma forallb_filter {A} (p : A -> bool) (l : list A) :
  forallb p (filter p l) = true.
Proof.
  induction l as [|x l IH]; simpl; [reflexivity|].
  destruct (p x) eqn:E; simpl; [rewrite E|]; exact IH.
Qed.

(** [parseInt] of a non-empty string of digits is its decimal value. *)
Lemma parseInt10_digits (s : jsstring) :
  s <> [] -> forallb is_digit s = true ->
  parseInt10 s = Finite (inject_Z (Z.of_N (digits_value s))).
Proof.
  intros Hne H; unfold parseInt10, trimStart.
  rewrite (dropWhile_none is_ws s (digits_no_ws s H)).
  destruct s as [|c r]; [congruence|].
  assert (Hc : is_digit c = true) by (simpl in H; apply andb_true_iff in H; tauto).
  assert ((c =? 45) = false /\ (c =? 43) = false) as [-> ->].
  { unfold is_digit in Hc; bool_arith; split; apply N.eqb_neq; lia. }
  rewrite (span_all is_digit (c :: r) H); reflexivity.
Qed.

Lemma number_ge_Finite_Z (z k : Z) :
  number_ge (Finite (inject_Z z)) k = true <-> (k <= z)%Z.
Proof.
  simpl; rewrite Qle_bool_iff, <- Zle_Qle; reflexivity.
Qed.

End JSFacts.

(** ** The course form *)

Module CourseFormFacts.
Import JS JSFacts CourseForm.

(** *** Reconciliation of a loaded record with the defaults *)

(** C1 (as stated, refuted).  The claim reads: the [config] handed to the
    form is the per-leaf reconciliation, so a record that supplies only
    [pagina_venda.link] still gets the default [label].  On the record
    [only_link] the form receives [pagina_venda] as loaded, with [label]
    undefined, where per-leaf reconciliation gives the default [''];
    hence the two differ. *)
Lemma reset_config_not_per_leaf :
  chain (pagina_venda (reset_config only_link)) label = undefined
  /\ chain (pagina_venda (per_leaf_config only_link)) label = val (lit "")
  /\ ~ (forall c, reset_config c = per_leaf_config c).
Proof.
  split; [reflexivity|]. split; [reflexivity|].
  intros H. specialize (H only_link).
  apply (f_equal (fun cfg => chain (pagina_venda cfg) label)) in H.
  vm_compute in H. discriminate H.
Qed.

(** C1 (amended).  For every loaded record [c], the [config] handed to the
    form is [reset_config c], in which
    - the scalar leaves [proximo_curso], [gratis], [tipo_desconto_taxa],
      [desconto_taxa], [pagina_divulgacao] and [video] each take the remote
      value when present and non-null, else the form default;
    - [comissao] takes the remote value when present and non-null;
    - [tx2] takes the remote list when it is non-empty, else the default
      single blank row;
    - each nested object [pagina_venda], [adc], [ead] is taken whole from
      the record when present and non-null, else it is the full default
      object;
    so when a nested object is missing, all its leaves hold their
    defaults. *)
Theorem reset_config_spec (c : CoursePayload.t) (values : CoursePayload.t) :
  let cfg := CoursePayload.config c in
  let r := reset_config c in
  CoursePayload.config (applyInitialData (val c) values) = val r
  /\ proximo_curso r = leaf (chain cfg proximo_curso) (proximo_curso default_config)
  /\ gratis r = leaf (chain cfg gratis) (gratis default_config)
  /\ tipo_desconto_taxa r
     = leaf (chain cfg tipo_desconto_taxa) (tipo_desconto_taxa default_config)
  /\ desconto_taxa r = leaf (chain cfg desconto_taxa) (desconto_taxa default_config)
  /\ pagina_divulgacao r
     = leaf (chain cfg pagina_divulgacao) (pagina_divulgacao default_config)
  /\ video r = leaf (chain cfg video) (video default_config)
  /\ match chain cfg comissao with
     | val x => comissao r = val x
     | _ => True
     end
  /\ tx2 r = match chain cfg tx2 with
             | val (x :: l) => val (x :: l)
             | _ => tx2 default_config
             end
  /\ pagina_venda r = leaf (chain cfg pagina_venda) (pagina_venda default_config)
  /\ adc r = leaf (chain cfg adc) (adc default_config)
  /\ ead r = leaf (chain cfg ead) (ead default_config)
  /\ match chain cfg pagina_venda with
     | val _ => True
     | _ => chain (pagina_venda r) link = val (lit "")
            /\ chain (pagina_venda r) label = val (lit "")
     end
  /\ match chain cfg adc with
     | val _ => True
     | _ => chain (adc r) recheck = val (lit "n")
            /\ chain (adc r) recorrente = val (lit "n")
            /\ chain (adc r) cor = val (lit "FFFFFF")
     end
  /\ match chain cfg ead with
     | val _ => True
     | _ => chain (ead r) id_eadcontrol = val (lit "")
     end.
Proof.
  destruct c as [? ? ? ? ? ? ? ? ? cfg ? ? ? ? ? ?]; cbn -[lit].
  destruct cfg as [| |cfg]; cbn -[lit].
  1,2: repeat split.
  destruct cfg as [pc gr co tx td dt pd vi pv ad ea]; cbn -[lit].
  repeat split;
    try (destruct pc; reflexivity); try (destruct gr; reflexivity);
    try (destruct td; reflexivity); try (destruct dt; reflexivity);
    try (destruct pd; reflexivity); try (destruct vi; reflexivity);
    try (destruct co; cbn; trivial; reflexivity);
    try (destruct tx as [| |[|x l]]; reflexivity);
    try (destruct pv; cbn; auto; reflexivity);
    try (destruct ad; cbn; auto; reflexivity);
    try (destruct ea; cbn; auto; reflexivity).
Qed.

(** *** Classification of a failed validation *)

Lemma hasModuleTitleError_iff (errors : Errors.t) :
  hasModuleTitleError errors = true <-> exists i, module_title_error_at errors i.
Proof.
  unfold hasModuleTitleError, module_title_error_at; split.
  - destruct (Errors.modulos errors) as [|e|entries]; try discriminate.
    intros H; apply existsb_exists in H; destruct H as [[me|] [Hin Hme]];
      [|discriminate].
    destruct (ModuleErrors.titulo me) as [fe|] eqn:Hfe; [|discriminate].
    apply In_nth_error in Hin; destruct Hin as [i Hi].
    exists i, entries, me, fe; auto.
  - intros [i [entries [me [fe [-> [Hi Hfe]]]]]].
    apply existsb_exists; exists (Some me); split.
    + eapply nth_error_In; exact Hi.
    + rewrite Hfe; reflexivity.
Qed.

Lemma isEmptyObject_titulo (e : Errors.t) :
  isEmptyObject e = true -> Errors.titulo e = None.
Proof.
  unfold isEmptyObject; intros H.
  repeat (apply andb_true_iff in H; destruct H as [H ?]).
  destruct (Errors.titulo e); [discriminate|reflexivity].
Qed.

Lemma messages_differ : module_title_message <> generic_message.
Proof. discriminate. Qed.

(** How [onInvalid] classifies the error map it reads: the module-specific
    message if that map has a title error for some module entry, the generic
    message otherwise. *)
Lemma onInvalid_on_map (errors : Errors.t) :
  ((exists i, module_title_error_at errors i) ->
   description (onInvalid errors) = module_title_message)
  /\ (~ (exists i, module_title_error_at errors i) ->
      description (onInvalid errors) = generic_message).
Proof.
  unfold onInvalid; cbn [description].
  destruct (hasModuleTitleError errors) eqn:E.
  - split; [reflexivity|]. intros Hn; exfalso; apply Hn.
    apply hasModuleTitleError_iff; exact E.
  - split; [|reflexivity]. intros Hex.
    apply hasModuleTitleError_iff in Hex; congruence.
Qed.

Lemma no_errors_generic : description (onInvalid no_errors) = generic_message.
Proof. reflexivity. Qed.

(** A record with an empty [titulo] and one module with an empty [titulo]
    fails validation with a title error on that module. *)
Lemma untitled_module_invalid (unmask : jsstring -> number)
    (values : CoursePayload.t) (m : CourseModule.t) :
  CoursePayload.titulo values = val (lit "") ->
  CoursePayload.modulos values = val [m] ->
  CourseModule.titulo m = val (lit "") ->
  isEmptyObject (courseSchema unmask values) = false
  /\ module_title_error_at (courseSchema unmask values) 0.
Proof.
  intros Ht Hm Hmt.
  set (errors := courseSchema unmask values).
  assert (Hmod : exists me fe,
             Errors.modulos errors = modulos_entries [Some me]
             /\ ModuleErrors.titulo me = Some fe).
  { unfold errors, courseSchema; cbn [Errors.modulos].
    rewrite Hm; unfold z_array_modules, moduleSchema; cbn [map].
    rewrite Hmt; cbn [z_string first_issue min1 lit list_ascii_of_string map].
    unfold no_module_errors; cbn [ModuleErrors.titulo].
    cbn [ModuleErrors.etapa].
    destruct (z_string [min1 None] (CourseModule.etapa m)); cbn;
      do 2 eexists; split; reflexivity. }
  destruct Hmod as [me [fe [Hmod Hfe]]]. split.
  - destruct (isEmptyObject errors) eqn:E; [|reflexivity].
    apply isEmptyObject_titulo in E.
    unfold errors, courseSchema in E; cbn [Errors.titulo] in E.
    rewrite Ht in E; discriminate E.
  - exists [Some me], me, fe; auto.
Qed.

(** C5 (the code departs from the claim).  The claim asks that a failed
    submission whose error map has a module title error show the
    module-specific message.  The toast of a rejected submission is built by
    [onInvalid] from the error map the form state held before this
    validation, not from the map of the validation that failed.  So, on a
    form with no recorded errors, a record with an empty [titulo] and a
    single module whose [titulo] is empty is rejected, its error map has the
    module title error, and the toast carries the generic message; only a
    second submission of the same values carries the module-specific one. *)
Theorem onInvalid_reads_previous_errors (unmask : jsstring -> number) :
  (forall formState_errors values errors t,
      submit unmask formState_errors values = Rejected errors t ->
      errors = courseSchema unmask values /\ t = onInvalid formState_errors)
  /\ (forall values m,
        CoursePayload.titulo values = val (lit "") ->
        CoursePayload.modulos values = val [m] ->
        CourseModule.titulo m = val (lit "") ->
        exists errors t,
          submit unmask no_errors values = Rejected errors t
          /\ module_title_error_at errors 0
          /\ description t = generic_message
          /\ description t <> module_title_message
          /\ exists t2,
               submit unmask (errors_after (Rejected errors t)) values
               = Rejected errors t2
               /\ description t2 = module_title_message)
  /\ (exists errors t,
        submit unmask no_errors untitled_course = Rejected errors t
        /\ module_title_error_at errors 0
        /\ description t = generic_message).
Proof.
  assert (Hgen : forall values m,
             CoursePayload.titulo values = val (lit "") ->
             CoursePayload.modulos values = val [m] ->
             CourseModule.titulo m = val (lit "") ->
             exists errors t,
               submit unmask no_errors values = Rejected errors t
               /\ module_title_error_at errors 0
               /\ description t = generic_message
               /\ description t <> module_title_message
               /\ exists t2,
                    submit unmask (errors_after (Rejected errors t)) values
                    = Rejected errors t2
                    /\ description t2 = module_title_message).
  { intros values m Ht Hm Hmt.
    destruct (untitled_module_invalid unmask values m Ht Hm Hmt) as [Hrej Hat].
    exists (courseSchema unmask values), (onInvalid no_errors).
    split; [unfold submit; rewrite Hrej; reflexivity|].
    split; [exact Hat|]. split; [reflexivity|].
    split; [rewrite no_errors_generic; intros H; symmetry in H;
            exact (messages_differ H)|].
    exists (onInvalid (courseSchema unmask values)).
    split; [unfold submit; cbn [errors_after]; rewrite Hrej; reflexivity|].
    apply onInvalid_on_map. exists 0%nat. exact Hat. }
  split; [|split].
  - intros snapshot values errors t H; unfold submit in H.
    destruct (isEmptyObject (courseSchema unmask values)); [discriminate|].
    inversion H; subst; clear H. split; reflexivity.
  - exact Hgen.
  - destruct (Hgen untitled_course blank_module eq_refl eq_refl eq_refl)
      as [errors [t [Hs [Hat [Hd _]]]]].
    exists errors, t. auto.
Qed.

(** *** The defaults against the schema *)

(** C6.  Validating the form's default values reports exactly two issues,
    on [nome] and on [titulo] (both empty on purpose); every other rule
    passes on its default: [duracao] and [parcelas] are digit strings,
    [parcelas] is at least 1, the three amounts ['0,00'] unmask to a value
    that is not negative, [tipo] and [categoria] are not empty and the empty
    [modulos] is valid.  The submission is therefore rejected. *)
Theorem defaults_fail_on_nome_and_titulo_only :
  courseSchema Currency.currencyRemoveMaskToNumber defaultValues
  = {| Errors.nome :=
         Some {| code := too_small;
                 message := Some "Nome interno é obrigatório"%string |};
       Errors.titulo :=
         Some {| code := too_small;
                 message := Some "Título é obrigatório"%string |};
       Errors.ativo := None;
       Errors.destaque := None;
       Errors.publicar := None;
       Errors.duracao := None;
       Errors.unidade_duracao := None;
       Errors.tipo := None;
       Errors.categoria := None;
       Errors.inscricao := None;
       Errors.valor := None;
       Errors.parcelas := None;
       Errors.valor_parcela := None;
       Errors.aeronaves := None;
       Errors.modulos := modulos_ok |}
  /\ test_all is_digit (trim (lit "0")) = true
  /\ test_all is_digit (trim (lit "1")) = true
  /\ number_ge (parseInt10 (trim (lit "1"))) 1 = true
  /\ number_ge (Currency.currencyRemoveMaskToNumber (lit "0,00")) 0 = true
  /\ (forall formState_errors,
        exists errors t,
          submit Currency.currencyRemoveMaskToNumber formState_errors
            defaultValues
          = Rejected errors t).
Proof.
  repeat split; try (vm_compute; reflexivity).
  do 2 eexists; unfold submit.
  replace (isEmptyObject
             (courseSchema Currency.currencyRemoveMaskToNumber defaultValues))
    with false by (vm_compute; reflexivity).
  reflexivity.
Qed.

(** *** The installment count *)

Lemma parcelas_schema_digits (s : jsstring) :
  forallb is_digit s = true ->
  (parcelas_schema (val s) = None <-> s <> [] /\ 1 <= digits_value s).
Proof.
  intros Hd; unfold parcelas_schema, z_string.
  destruct s as [|c r] eqn:Hs.
  - cbn; split; [discriminate|intros [H _]; congruence].
  - rewrite <- Hs in *.
    assert (Hne : s <> []) by (rewrite Hs; discriminate).
    cbn [first_issue]. replace (min1 _ s) with (@None FieldError)
      by (rewrite Hs; reflexivity).
    unfold refine; rewrite (trim_digits s Hd).
    replace (test_all is_digit s) with true
      by (rewrite Hs; cbn [test_all]; rewrite <- Hs; symmetry; exact Hd).
    rewrite (parseInt10_digits s Hne Hd); cbn [andb].
    destruct (number_ge (Finite (inject_Z (Z.of_N (digits_value s)))) 1) eqn:E.
    + apply number_ge_Finite_Z in E. split; [intros _|reflexivity].
      split; [exact Hne|lia].
    + split; [discriminate|]. intros [_ Hge]. exfalso.
      assert (number_ge (Finite (inject_Z (Z.of_N (digits_value s)))) 1 = true)
        by (apply number_ge_Finite_Z; lia).
      congruence.
Qed.

(** C7.  Whatever is typed into the [parcelas] input, the stored value is
    the typed text with every non-digit removed, so it holds digits only;
    and the schema accepts the stored value exactly when it is a non-empty
    digit string whose value is at least 1. *)
Theorem parcelas_only_digits (unmask : jsstring -> number) (raw : jsstring)
    (v : CoursePayload.t) :
  let stored := onlyDigits raw in
  CoursePayload.parcelas (parcelas_onChange raw v) = val stored
  /\ stored = filter is_digit raw
  /\ forallb is_digit stored = true
  /\ (Errors.parcelas (courseSchema unmask (parcelas_onChange raw v)) = None
      <-> stored <> [] /\ 1 <= digits_value stored).
Proof.
  cbn zeta.
  assert (Hf : onlyDigits raw = filter is_digit raw)
    by apply replace_non_digits.
  assert (Hd : forallb is_digit (onlyDigits raw) = true)
    by (rewrite Hf; apply forallb_filter).
  split; [reflexivity|]. split; [exact Hf|]. split; [exact Hd|].
  cbn [courseSchema Errors.parcelas parcelas_onChange setValue_parcelas
       CoursePayload.parcelas].
  apply parcelas_schema_digits; exact Hd.
Qed.

Lemma parcelas_only_digits_witness :
  onlyDigits (lit "12x") = lit "12"
  /\ Errors.parcelas
       (courseSchema Currency.currencyRemoveMaskToNumber
          (parcelas_onChange (lit "12x") defaultValues)) = None.
Proof.
  split; [reflexivity|].
  destruct (parcelas_only_digits Currency.currencyRemoveMaskToNumber
              (lit "12x") defaultValues) as [_ [_ [_ H]]].
  apply H. split; [discriminate|]. vm_compute. discriminate.
Defined.

End CourseFormFacts.

(** ** The CMS component form *)

Module SiteComponentsFormFacts.
Import JS JSFacts SiteComponentsForm.

(** *** The upload handler *)

Section HandlerFacts.

Variable id : js jsstring.
Variable up : list File -> File -> js jsstring -> option Thrown.
Variable rf : nat -> option Thrown.

(** Allocating the previews: one fresh handle per file, nothing else
    changes, and the step cannot throw. *)
Lemma map_of_createObjectURL (files : list File) :
  forall w,
  exists previews,
    length previews = length files
    /\ map_of files
         (fun f =>
            u <- createObjectURL f ;;
            ret {| url := u; preview_name := name f |}) w
       = ({| localPreviews := localPreviews w;
             isUploading := isUploading w;
             next_object_url := next_object_url w + N.of_nat (length files);
             created_urls := created_urls w ++ map url previews;
             revoked_urls := revoked_urls w;
             upload_calls := upload_calls w;
             uploaded := uploaded w;
             refetches := refetches w;
             toasts := toasts w |}, Normal previews).
Proof.
  induction files as [|f r IH]; intros w.
  - exists []; split; [reflexivity|].
    destruct w; cbn. rewrite N.add_0_r, app_nil_r; reflexivity.
  - cbn [map_of]. unfold bind at 1 2. cbn [createObjectURL ret].
    unfold bind at 1.
    match goal with |- context [map_of r ?g ?w1] =>
      destruct (IH w1) as [ps [Hlen Hrun]]; rewrite Hrun end.
    exists ({| url := next_object_url w; preview_name := name f |} :: ps).
    split; [cbn; congruence|].
    cbn -[N.of_nat]. unfold ret.
    replace (N.of_nat (S (length r))) with (1 + N.of_nat (length r)) by lia.
    rewrite N.add_assoc, <- app_assoc. reflexivity.
Qed.

(** The upload loop touches only the log of calls and the remote store. *)
Lemma for_of_uploadFile_frame (files : list File) :
  forall w,
    let w' := fst (for_of files (uploadFile id up) w) in
    localPreviews w' = localPreviews w
    /\ isUploading w' = isUploading w
    /\ next_object_url w' = next_object_url w
    /\ created_urls w' = created_urls w
    /\ revoked_urls w' = revoked_urls w
    /\ refetches w' = refetches w
    /\ toasts w' = toasts w.
Proof.
  induction files as [|f r IH]; intros w; cbn [for_of].
  - cbn; repeat split.
  - unfold bind.
    destruct (uploadFile id up f w) as [w1 c1] eqn:E.
    unfold uploadFile in E.
    destruct (up (upload_calls w) f (meta id)) as [e|];
      inversion E; subst; clear E.
    + cbn; repeat split.
    + match goal with |- context [for_of r ?g ?w1] =>
        specialize (IH w1) end.
      cbn zeta in IH |- *. cbn in IH. exact IH.
Qed.

(** The upload loop calls the store file by file, in the order of the
    batch, and stops at the first call that throws. *)
Lemma for_of_uploadFile_calls (files : list File) :
  forall w,
    let r := for_of files (uploadFile id up) w in
    match first_failure (upload_outcome id up) (upload_calls w) files with
    | None =>
        snd r = Normal tt
        /\ upload_calls (fst r) = upload_calls w ++ files
        /\ uploaded (fst r) = uploaded w ++ files
    | Some (k, e) =>
        snd r = Throw e
        /\ (k < length files)%nat
        /\ upload_calls (fst r) = upload_calls w ++ firstn (S k) files
        /\ uploaded (fst r) = uploaded w ++ firstn k files
    end.
Proof.
  induction files as [|f r IH]; intros w; cbn [for_of first_failure].
  - cbn; rewrite !app_nil_r; auto.
  - unfold upload_outcome at 1. unfold bind.
    destruct (uploadFile id up f w) as [w1 c1] eqn:E.
    unfold uploadFile in E.
    destruct (up (upload_calls w) f (meta id)) as [e|];
      inversion E; subst; clear E.
    + cbn. rewrite app_nil_r. repeat split; lia.
    + match goal with |- context [for_of r ?g ?w1] =>
        specialize (IH w1) end.
      cbn zeta in IH |- *. cbn [upload_calls uploaded] in IH.
      destruct (first_failure (upload_outcome id up) (upload_calls w ++ [f]) r)
        as [[k e]|].
      * destruct IH as [Hs [Hk [Hc Hu]]].
        rewrite Hs, Hc, Hu, <- !app_assoc. cbn [length firstn app].
        repeat split; lia.
      * destruct IH as [Hs [Hc Hu]].
        rewrite Hs, Hc, Hu, <- !app_assoc. repeat split.
Qed.

Lemma bind_run {A B} (m : Async A) (k : A -> Async B) (w : World) :
  bind m k w
  = match m w with
    | (w', Normal a) => k a w'
    | (w', Throw e) => (w', Throw e)
    end.
Proof. reflexivity. Qed.

(** What one run of the handler on a non-empty batch leaves behind. *)
Lemma handleFilesDrop_run (files : list File) (w : World) :
  files <> [] ->
  let r := handleFilesDrop id up rf files w in
  let w' := fst r in
  snd r = Normal tt
  /\ localPreviews w' = []
  /\ isUploading w' = false
  /\ (exists urls,
        length urls = length files
        /\ created_urls w' = created_urls w ++ urls
        /\ revoked_urls w'
           = revoked_urls w ++ map url (localPreviews w) ++ urls)
  /\ match first_failure (upload_outcome id up) (upload_calls w) files with
     | None =>
         upload_calls w' = upload_calls w ++ files
         /\ uploaded w' = uploaded w ++ files
         /\ refetches w' = S (refetches w)
         /\ toasts w'
            = match rf (refetches w) with
              | None => toasts w
              | Some e => toasts w ++ [failure_toast e]
              end
     | Some (k, e) =>
         (k < length files)%nat
         /\ upload_calls w' = upload_calls w ++ firstn (S k) files
         /\ uploaded w' = uploaded w ++ firstn k files
         /\ refetches w' = refetches w
         /\ toasts w' = toasts w ++ [failure_toast e]
     end.
Proof.
  intros Hne. unfold handleFilesDrop.
  destruct files as [|f0 r0]; [congruence|]. clear Hne.
  cbn [length Nat.eqb]. set (files := f0 :: r0).
  rewrite bind_run. cbn [setIsUploading].
  unfold try_catch_finally. rewrite bind_run.
  match goal with |- context [map_of files ?g ?w0] =>
    destruct (map_of_createObjectURL files w0) as [ps [Hlen Hrun]];
    rewrite Hrun; clear Hrun end.
  rewrite bind_run. cbn [appendLocalPreviews]. rewrite bind_run.
  cbn [localPreviews isUploading next_object_url created_urls revoked_urls
       upload_calls uploaded refetches toasts].
  match goal with |- context [for_of files ?g ?w1] =>
    pose proof (for_of_uploadFile_frame files w1) as Hframe;
    pose proof (for_of_uploadFile_calls files w1) as Hcalls;
    destruct (for_of files g w1) as [w2 c2] end.
  cbn zeta in Hframe, Hcalls.
  cbn [fst snd localPreviews isUploading next_object_url created_urls
       revoked_urls upload_calls uploaded refetches toasts] in Hframe, Hcalls.
  destruct Hframe as [Hlp [Hiu [Hnx [Hcr [Hrv [Hrf Hto]]]]]].
  assert (Hurls : exists urls,
             length urls = length files
             /\ created_urls w2 = created_urls w ++ urls
             /\ revoked_urls w2 ++ map url (localPreviews w2)
                = revoked_urls w ++ map url (localPreviews w) ++ urls).
  { exists (map url ps). rewrite length_map, Hcr, Hrv, Hlp, map_app.
    auto. }
  destruct (first_failure (upload_outcome id up) (upload_calls w) files) as [[k e]|].
  - destruct Hcalls as [Hs [Hk [Hc Hu]]]. subst c2.
    cbn -[files failure_toast]. unfold failure_toast, ToString.
    rewrite Hc, Hu, Hrf, Hto. repeat split; auto.
  - destruct Hcalls as [Hs [Hc Hu]]. subst c2.
    unfold refetch. rewrite Hrf.
    destruct (rf (refetches w)) as [e|];
      cbn -[files failure_toast]; unfold failure_toast, ToString;
      rewrite Hc, Hu, Hto; repeat split; auto.
Qed.

End HandlerFacts.

Lemma first_failure_Some (o : list File -> File -> option Thrown)
    (files : list File) :
  forall calls k fk e,
    nth_error files k = Some fk ->
    (forall i f, (i < k)%nat -> nth_error files i = Some f ->
                 o (calls ++ firstn i files) f = None) ->
    o (calls ++ firstn k files) fk = Some e ->
    first_failure o calls files = Some (k, e).
Proof.
  induction files as [|f r IH]; intros calls k fk e Hk Hbefore Hthrow.
  - destruct k; discriminate Hk.
  - destruct k as [|k]; cbn [first_failure].
    + cbn in Hk, Hthrow. inversion Hk; subst fk.
      rewrite app_nil_r in Hthrow. rewrite Hthrow. reflexivity.
    + assert (H0 : o calls f = None).
      { specialize (Hbefore 0%nat f). cbn in Hbefore.
        rewrite app_nil_r in Hbefore. apply Hbefore; [lia|reflexivity]. }
      rewrite H0.
      rewrite (IH (calls ++ [f]) k fk e); [reflexivity|exact Hk| |].
      * intros i fi Hi Hnth. rewrite <- app_assoc.
        apply (Hbefore (S i) fi); [lia|exact Hnth].
      * rewrite <- app_assoc. exact Hthrow.
Qed.

Lemma first_failure_None (o : list File -> File -> option Thrown)
    (files : list File) :
  forall calls,
    (forall i f, nth_error files i = Some f ->
                 o (calls ++ firstn i files) f = None) ->
    first_failure o calls files = None.
Proof.
  induction files as [|f r IH]; intros calls Hall; cbn [first_failure].
  - reflexivity.
  - assert (H0 : o calls f = None).
    { specialize (Hall 0%nat f). cbn in Hall.
      rewrite app_nil_r in Hall. apply Hall; reflexivity. }
    rewrite H0, (IH (calls ++ [f])); [reflexivity|].
    intros i fi Hnth. rewrite <- app_assoc. apply (Hall (S i) fi); exact Hnth.
Qed.

(** The text of the notification follows the claim's order of preference. *)
Lemma apiMsg_most_specific (err : Thrown) : most_specific_message err (apiMsg err).
Proof.
  unfold apiMsg.
  destruct (chain (chain err body) body_message) as [| |[|c s]] eqn:Hb;
    cbn [or_str];
    try (apply server_message; [exact Hb|discriminate]);
    (destruct (chain err message) as [| |[|c' s']] eqn:Hm; cbn [or_str];
     [ apply generic_message; [rewrite Hb|rewrite Hm]; reflexivity
     | apply generic_message; [rewrite Hb|rewrite Hm]; reflexivity
     | apply generic_message; [rewrite Hb|rewrite Hm]; reflexivity
     | apply error_message; [rewrite Hb; reflexivity|exact Hm|discriminate] ]).
Qed.

(** C9.  On an empty selection the handler is the computation that does
    nothing: the world it returns is the world it was given (no preview, no
    change of the uploading flag, no upload call, no refetch, no
    notification). *)
Theorem handleFilesDrop_empty (id : js jsstring)
    (up : list File -> File -> js jsstring -> option Thrown)
    (rf : nat -> option Thrown) :
  handleFilesDrop id up rf [] = ret tt
  /\ forall w, handleFilesDrop id up rf [] w = (w, Normal tt).
Proof. split; [reflexivity|intros w; reflexivity]. Qed.

(** C2.  After the handler has run on a non-empty batch, whether every
    upload resolved or some call threw: the handler has completed, one
    handle was allocated per file and every one of them has been revoked,
    the local preview list is empty and the uploading flag is false.  With
    three files, the first call resolving and the second throwing, exactly
    one upload succeeds (and the third file is never sent). *)
Theorem handleFilesDrop_cleanup (id : js jsstring)
    (up : list File -> File -> js jsstring -> option Thrown)
    (rf : nat -> option Thrown) (files : list File) (w : World) :
  files <> [] ->
  let r := handleFilesDrop id up rf files w in
  let w' := fst r in
  snd r = Normal tt
  /\ localPreviews w' = []
  /\ isUploading w' = false
  /\ (exists urls,
        length urls = length files
        /\ created_urls w' = created_urls w ++ urls
        /\ incl urls (revoked_urls w'))
  /\ (forall f1 f2 f3 e,
        files = [f1; f2; f3] ->
        up (upload_calls w) f1 (meta id) = None ->
        up (upload_calls w ++ [f1]) f2 (meta id) = Some e ->
        uploaded w' = uploaded w ++ [f1]
        /\ upload_calls w' = upload_calls w ++ [f1; f2]).
Proof.
  intros Hne.
  destruct (handleFilesDrop_run id up rf files w Hne)
    as [Hs [Hlp [Hiu [[urls [Hlen [Hcr Hrv]]] Hcalls]]]].
  cbn zeta. split; [exact Hs|]. split; [exact Hlp|]. split; [exact Hiu|].
  split.
  - exists urls. split; [exact Hlen|]. split; [exact Hcr|].
    rewrite Hrv. intros u Hu. apply in_or_app; right.
    apply in_or_app; right. exact Hu.
  - intros f1 f2 f3 e Hfiles H1 H2.
    rewrite (first_failure_Some _ files (upload_calls w) 1 f2 e) in Hcalls.
    + destruct Hcalls as [_ [Hc [Hu _]]]. rewrite Hc, Hu, Hfiles. auto.
    + rewrite Hfiles; reflexivity.
    + intros i f Hi Hnth. assert (i = 0)%nat by lia. subst i.
      rewrite Hfiles in Hnth |- *. cbn in Hnth |- *. inversion Hnth; subst f.
      rewrite app_nil_r. exact H1.
    + rewrite Hfiles. cbn [firstn]. exact H2.
Qed.

Lemma handleFilesDrop_cleanup_witness :
  [photo 1; photo 2; photo 3] <> []
  /\ let w' := fst (handleFilesDrop undefined second_call_fails refetch_resolves
                      [photo 1; photo 2; photo 3] empty_world) in
     localPreviews w' = [] /\ isUploading w' = false
     /\ uploaded w' = [photo 1].
Proof.
  split; [discriminate|].
  destruct (handleFilesDrop_cleanup undefined second_call_fails refetch_resolves
              [photo 1; photo 2; photo 3] empty_world)
    as [_ [Hlp [Hiu [_ H3]]]]; [discriminate|].
  cbn zeta in *. split; [exact Hlp|]. split; [exact Hiu|].
  destruct (H3 (photo 1) (photo 2) (photo 3) too_large) as [Hu _];
    [reflexivity|reflexivity|reflexivity|exact Hu].
Defined.

(** C3.  On a non-empty batch the store is called file by file in the
    order of the batch.  If every call resolves, every file is sent.  If the
    call for the file at position [k] is the first to throw, the files
    after it are never sent, the listing is not refetched, and exactly one
    notification is raised whose text is the server's body message if there
    is one, else the error's own message, else ['Falha ao enviar
    arquivo.']. *)
Theorem handleFilesDrop_fail_fast (id : js jsstring)
    (up : list File -> File -> js jsstring -> option Thrown)
    (rf : nat -> option Thrown) (files : list File) (w : World) :
  files <> [] ->
  let w' := fst (handleFilesDrop id up rf files w) in
  (exists n, upload_calls w' = upload_calls w ++ firstn n files)
  /\ ((forall i f, nth_error files i = Some f ->
                   up (upload_calls w ++ firstn i files) f (meta id) = None) ->
      upload_calls w' = upload_calls w ++ files)
  /\ (forall k fk e,
        nth_error files k = Some fk ->
        (forall i f, (i < k)%nat -> nth_error files i = Some f ->
                     up (upload_calls w ++ firstn i files) f (meta id) = None) ->
        up (upload_calls w ++ firstn k files) fk (meta id) = Some e ->
        upload_calls w' = upload_calls w ++ firstn (S k) files
        /\ refetches w' = refetches w
        /\ exists t,
             toasts w' = toasts w ++ [t]
             /\ description t = apiMsg e
             /\ most_specific_message e (description t)).
Proof.
  intros Hne.
  destruct (handleFilesDrop_run id up rf files w Hne)
    as [_ [_ [_ [_ Hcalls]]]].
  cbn zeta in *. split; [|split].
  - destruct (first_failure _ (upload_calls w) files) as [[k e]|].
    + exists (S k). tauto.
    + exists (length files). rewrite firstn_all. tauto.
  - intros Hall.
    rewrite (first_failure_None _ files (upload_calls w) Hall) in Hcalls.
    tauto.
  - intros k fk e Hk Hbefore Hthrow.
    rewrite (first_failure_Some _ files (upload_calls w) k fk e Hk Hbefore Hthrow)
      in Hcalls.
    destruct Hcalls as [_ [Hc [_ [Hr Ht]]]].
    split; [exact Hc|]. split; [exact Hr|].
    exists (failure_toast e). split; [exact Ht|]. split; [reflexivity|].
    apply apiMsg_most_specific.
Qed.

Lemma handleFilesDrop_fail_fast_witness :
  let w' := fst (handleFilesDrop undefined second_call_fails refetch_resolves
                   [photo 1; photo 2; photo 3] empty_world) in
  upload_calls w' = [photo 1; photo 2]
  /\ refetches w' = 0%nat
  /\ exists t, toasts w' = [t] /\ description t = lit "Arquivo muito grande".
Proof.
  destruct (handleFilesDrop_fail_fast undefined second_call_fails refetch_resolves
              [photo 1; photo 2; photo 3] empty_world)
    as [_ [_ H]]; [discriminate|].
  destruct (H 1%nat (photo 2) too_large) as [Hc [Hr [t [Ht [Hd _]]]]].
  - reflexivity.
  - intros i f Hi Hnth. destruct i as [|i]; [reflexivity|exfalso; lia].
  - reflexivity.
  - cbn zeta. split; [exact Hc|]. split; [exact Hr|].
    exists t. split; [exact Ht|exact Hd].
Defined.

(** *** The [short_code] input *)

(** [runs] cuts a string into pieces: glued back together they give the
    string. *)
Lemma runs_concat (s : jsstring) : concat (map snd (runs s)) = s.
Proof.
  induction s as [|c r IH]; cbn [runs]; [reflexivity|].
  destruct (runs r) as [|[w run] rest].
  - cbn in IH |- *. subst r. reflexivity.
  - destruct (Bool.eqb w (is_ws c)); cbn in IH |- *; rewrite IH; reflexivity.
Qed.

(** Every piece is uniform: all white space, or no white space at all. *)
Lemma runs_uniform (s : jsstring) :
  Forall (fun wr : bool * jsstring =>
            snd wr <> [] /\ Forall (fun c => is_ws c = fst wr) (snd wr))
    (runs s).
Proof.
  induction s as [|c r IH]; cbn [runs]; [constructor|].
  destruct (runs r) as [|[w run] rest].
  - constructor; [|constructor]. cbn. split; [discriminate|]. auto.
  - inversion IH as [|? ? [Hne Hrun] Hrest]; subst.
    destruct (Bool.eqb w (is_ws c)) eqn:E.
    + apply Bool.eqb_prop in E. constructor; [|exact Hrest].
      cbn in *. split; [discriminate|]. constructor; [congruence|exact Hrun].
    + constructor; [|exact IH]. cbn. split; [discriminate|]. auto.
Qed.

(** Every piece is maximal: neighbouring pieces are of different kinds. *)
Lemma runs_maximal (s : jsstring) : alternating (runs s).
Proof.
  induction s as [|c r IH]; cbn [runs]; [exact I|].
  destruct (runs r) as [|[w run] rest] eqn:Hr; [exact I|].
  destruct (Bool.eqb w (is_ws c)) eqn:E.
  - destruct rest; [exact I|]. cbn in IH |- *. exact IH.
  - split; [|exact IH]. cbn. intros Heq.
    rewrite Heq, Bool.eqb_reflx in E. discriminate E.
Qed.

Lemma runs_head (c : N) (r : jsstring) :
  exists run rest, runs (c :: r) = (is_ws c, run) :: rest.
Proof.
  cbn [runs]. destruct (runs r) as [|[w run] rest]; [eauto|].
  destruct (Bool.eqb w (is_ws c)) eqn:E; [|eauto].
  apply Bool.eqb_prop in E; subst w; eauto.
Qed.

Lemma collapse_cons_other (c : N) (r : jsstring) :
  is_ws c = false -> collapse_runs (c :: r) = c :: collapse_runs r.
Proof.
  intros Hc. unfold collapse_runs. cbn [runs].
  destruct (runs r) as [|[w run] rest]; rewrite Hc; [reflexivity|].
  destruct w; reflexivity.
Qed.

Lemma collapse_cons_ws (c : N) (r : jsstring) :
  is_ws c = true ->
  collapse_runs (c :: r) = lit "_" ++ collapse_runs (dropWhile is_ws r).
Proof.
  revert c; induction r as [|d r IH]; intros c Hc.
  - unfold collapse_runs; cbn [runs flat_map dropWhile fst]. rewrite Hc.
    reflexivity.
  - cbn [dropWhile]. destruct (is_ws d) eqn:Hd.
    + rewrite <- (IH d Hd).
      destruct (runs_head d r) as [run [rest Hr]]. rewrite Hd in Hr.
      unfold collapse_runs. cbn [runs] in Hr |- *. rewrite Hr, Hc.
      reflexivity.
    + destruct (runs_head d r) as [run [rest Hr]]. rewrite Hd in Hr.
      unfold collapse_runs. cbn [runs] in Hr |- *. rewrite Hr, Hc.
      reflexivity.
Qed.

Lemma replace_class_plus_fuel_collapse (fuel : nat) :
  forall s, (length s <= fuel)%nat ->
            replace_class_plus_fuel fuel is_ws (lit "_") s = collapse_runs s.
Proof.
  induction fuel as [|fuel IH]; intros s Hlen.
  - destruct s; [reflexivity|cbn in Hlen; lia].
  - destruct s as [|c r]; [reflexivity|].
    cbn [replace_class_plus_fuel]. cbn [length] in Hlen.
    destruct (is_ws c) eqn:Hc.
    + rewrite snd_span_dropWhile. cbn [dropWhile]. rewrite Hc.
      rewrite IH; [symmetry; apply collapse_cons_ws; exact Hc|].
      pose proof (dropWhile_length is_ws r). lia.
    + rewrite IH; [symmetry; apply collapse_cons_other; exact Hc|lia].
Qed.

Lemma collapse_runs_no_ws (s : jsstring) :
  Forall (fun c => is_ws c = false) (collapse_runs s).
Proof.
  unfold collapse_runs. pose proof (runs_uniform s) as H.
  induction H as [|[w run] rest [_ Hrun] _ IH]; cbn [flat_map]; [constructor|].
  apply Forall_app; split; [|exact IH].
  cbn [fst snd] in *. destruct w; [|exact Hrun].
  constructor; [reflexivity|constructor].
Qed.

(** C10.  The value stored for [short_code] is the typed text in which
    every maximal run of white space has become one underscore and every
    other code unit is kept; hence it contains no white space. *)
Theorem short_code_normalized (value : jsstring) :
  short_code_onChange value = collapse_runs value
  /\ Forall (fun c => is_ws c = false) (short_code_onChange value).
Proof.
  assert (H : short_code_onChange value = collapse_runs value).
  { unfold short_code_onChange, replace_class_plus.
    apply replace_class_plus_fuel_collapse. lia. }
  split; [exact H|]. rewrite H. apply collapse_runs_no_ws.
Qed.

(** *** The gallery discriminator and the listing query *)

(** While another type is selected and no run of the handler is
    suspended, an event other than the selection of a gallery value changes
    neither the world nor the log of refetches, and starts no run. *)
Lemma step_quiet (ev : Event) (p : Page) :
  running p = [] ->
  uploadsQuery_enabled (tipo_conteudo p) = false ->
  (forall v, ev = select_type v -> isGallery v = false) ->
  running (step ev p) = []
  /\ uploadsQuery_enabled (tipo_conteudo (step ev p)) = false
  /\ world (step ev p) = world p
  /\ refetched_under (step ev p) = refetched_under p.
Proof.
  intros Hrun Hoff Hsel. destruct ev as [v|files|i o]; cbn [step].
  - cbn [running tipo_conteudo world refetched_under].
    repeat split; [exact Hrun|]. exact (Hsel v eq_refl).
  - unfold uploadsQuery_enabled in Hoff. rewrite Hoff. auto.
  - rewrite Hrun. destruct i; cbn; auto.
Qed.

Lemma run_quiet (trace : list Event) :
  forall p,
    running p = [] ->
    uploadsQuery_enabled (tipo_conteudo p) = false ->
    (forall v, In (select_type v) trace -> isGallery v = false) ->
    running (run trace p) = []
    /\ world (run trace p) = world p
    /\ refetched_under (run trace p) = refetched_under p.
Proof.
  induction trace as [|ev trace IH]; intros p Hrun Hoff Hsel.
  - cbn. auto.
  - cbn [run fold_left]. fold (run trace (step ev p)).
    destruct (step_quiet ev p Hrun Hoff) as [Hr [Ho [Hw Hf]]].
    { intros v ->. apply Hsel. left. reflexivity. }
    destruct (IH (step ev p) Hr Ho) as [Hr' [Hw' Hf']].
    { intros v Hv. apply Hsel. right. exact Hv. }
    rewrite Hw', Hf'. auto.
Qed.

(** C4 (as stated, refuted).  The claim reads: for every selected value
    other than the gallery one, the listing is never fetched.  On a page
    showing type ['19'] a file is dropped; while its upload is in flight the
    user selects type ['20']; the upload then resolves and the handler calls
    [uploadsQuery.refetch()]: the listing is fetched while ['20'] is
    selected, a value for which the query is disabled. *)
Lemma refetch_under_other_type :
  let p := run [drop [photo 1]; select_type (lit "20"); settle 0 resolved]
             gallery_page in
  refetched_under p = [val (lit "20")]
  /\ refetches (world p) = 1%nat
  /\ uploadsQuery_enabled (val (lit "20")) = false.
Proof. vm_compute. repeat split. Qed.

(** C4 (amended).  The listing query is enabled exactly when the selected
    content type, as a string, is ['19'] or coerces to the number 19.  A
    batch can be dropped only while such a value is selected: as long as
    another value stays selected and no run of the handler is suspended, no
    file is sent and the listing is not refetched, whatever happened before.
    The refetch that ends a fully uploaded batch is not gated: it is issued
    when the last upload resolves, under whatever value is selected then. *)
Theorem uploads_listing_gate :
  (forall v,
      uploadsQuery_enabled v = true
      <-> (ToString (selectedTypeValue v) = lit "19"
           \/ number_is_19 (Number (selectedTypeValue v)) = true))
  /\ (forall trace p,
        running p = [] ->
        uploadsQuery_enabled (tipo_conteudo p) = false ->
        (forall v, In (select_type v) trace -> isGallery v = false) ->
        running (run trace p) = []
        /\ world (run trace p) = world p
        /\ refetched_under (run trace p) = refetched_under p)
  /\ (forall p i file,
        nth_error (running p) i = Some (await_uploadFile file []) ->
        refetches (world (step (settle i resolved) p)) = S (refetches (world p))
        /\ refetched_under (step (settle i resolved) p)
           = refetched_under p ++ [tipo_conteudo p]).
Proof.
  split; [|split].
  - intros v. unfold uploadsQuery_enabled, isGallery.
    rewrite orb_true_iff, str_eqb_eq. reflexivity.
  - intros trace p. apply run_quiet.
  - intros p i file H. cbn [step]. rewrite H. split; reflexivity.
Qed.

Lemma uploads_listing_gate_witness :
  uploadsQuery_enabled (val (lit " 19 ")) = true
  /\ world (run [drop [photo 1]; settle 0 resolved; select_type (lit "21")]
              other_page)
     = world other_page.
Proof.
  destruct uploads_listing_gate as [Hgate [Hquiet _]].
  split; [apply Hgate; right; vm_compute; reflexivity|].
  apply Hquiet; [reflexivity|vm_compute; reflexivity|].
  intros v [H|[H|[H|[]]]]; try discriminate H.
  injection H as <-. vm_compute. reflexivity.
Defined.

End SiteComponentsFormFacts.

(** ** The currency mask *)

Module CurrencyFacts.
Import JS JSFacts Currency.

(** *** Decimal digits *)

Lemma fold_digits_shift (ds : jsstring) (a : N) :
  fold_left (fun acc c => 10 * acc + digit_val c) ds a
  = a * 10 ^ N.of_nat (length ds) + digits_value ds.
Proof.
  unfold digits_value. revert a.
  induction ds as [|d ds IH]; intros a.
  - cbn. lia.
  - cbn [fold_left length]. rewrite IH, (IH (10 * 0 + digit_val d)).
    rewrite Nat2N.inj_succ, N.pow_succ_r'. lia.
Qed.

Lemma digits_value_cons (d : N) (ds : jsstring) :
  digits_value (d :: ds)
  = digit_val d * 10 ^ N.of_nat (length ds) + digits_value ds.
Proof.
  unfold digits_value at 1. cbn [fold_left].
  rewrite fold_digits_shift. lia.
Qed.

Lemma digits_value_app (a b : jsstring) :
  digits_value (a ++ b)
  = digits_value a * 10 ^ N.of_nat (length b) + digits_value b.
Proof.
  unfold digits_value at 1. rewrite fold_left_app.
  fold (digits_value a). apply fold_digits_shift.
Qed.

Lemma digit_char (n : N) : n < 10 -> is_digit (48 + n) = true.
Proof.
  intros H. unfold is_digit. apply andb_true_iff; split; apply N.leb_le; lia.
Qed.

Lemma digit_val_char (n : N) : digit_val (48 + n) = n.
Proof. unfold digit_val. lia. Qed.

Lemma to_digits_fuel_spec (fuel : nat) :
  forall n acc,
    n < 2 ^ N.of_nat fuel ->
    forallb is_digit acc = true ->
    forallb is_digit (to_digits_fuel fuel n acc) = true
    /\ digits_value (to_digits_fuel fuel n acc)
       = n * 10 ^ N.of_nat (length acc) + digits_value acc.
Proof.
  induction fuel as [|fuel IH]; intros n acc Hn Hacc.
  - cbn in Hn. assert (n = 0) by lia. subst n. cbn [to_digits_fuel].
    split; [exact Hacc|lia].
  - cbn [to_digits_fuel].
    assert (Hmod : n mod 10 < 10) by (apply N.mod_lt; lia).
    assert (Hacc' : forallb is_digit ((48 + n mod 10) :: acc) = true).
    { cbn [forallb]. rewrite (digit_char _ Hmod), Hacc. reflexivity. }
    assert (Hval : digits_value ((48 + n mod 10) :: acc)
                   = n mod 10 * 10 ^ N.of_nat (length acc) + digits_value acc).
    { rewrite digits_value_cons, digit_val_char. reflexivity. }
    pose proof (N.div_mod n 10 ltac:(lia)) as Hdm.
    destruct (n / 10 =? 0) eqn:E.
    + apply N.eqb_eq in E. split; [exact Hacc'|].
      rewrite Hval. rewrite E in Hdm. f_equal. f_equal. lia.
    + assert (Hlt : n / 10 < 2 ^ N.of_nat fuel).
      { rewrite Nat2N.inj_succ, N.pow_succ_r' in Hn.
        apply N.Div0.div_lt_upper_bound. lia. }
      destruct (IH (n / 10) _ Hlt Hacc') as [Hd Hv].
      split; [exact Hd|]. rewrite Hv, Hval. cbn [length].
      rewrite Nat2N.inj_succ, N.pow_succ_r'. nia.
Qed.

Lemma to_digits_fuel_nonempty (fuel : nat) (n : N) (acc : jsstring) :
  to_digits_fuel (S fuel) n acc <> [].
Proof.
  revert n acc. induction fuel as [|fuel IH]; intros n acc.
  - cbn. destruct (n / 10 =? 0); discriminate.
  - cbn [to_digits_fuel]. destruct (n / 10 =? 0); [discriminate|].
    apply (IH (n / 10)).
Qed.

Lemma log2_bound (n : N) : n < 2 ^ N.of_nat (S (N.to_nat (N.log2 n))).
Proof.
  rewrite Nat2N.inj_succ, N2Nat.id.
  destruct (N.eq_dec n 0) as [->|Hn]; [reflexivity|].
  apply N.log2_spec. lia.
Qed.

Lemma to_digits_spec (n : N) :
  to_digits n <> []
  /\ forallb is_digit (to_digits n) = true
  /\ digits_value (to_digits n) = n.
Proof.
  unfold to_digits. split; [apply to_digits_fuel_nonempty|].
  destruct (to_digits_fuel_spec _ n [] (log2_bound n) eq_refl) as [Hd Hv].
  split; [exact Hd|]. rewrite Hv. cbn. lia.
Qed.

Lemma two_digits_spec (n : N) :
  n < 100 ->
  forallb is_digit (two_digits n) = true /\ digits_value (two_digits n) = n.
Proof.
  intros Hn. unfold two_digits.
  assert (H1 : (n / 10) mod 10 < 10) by (apply N.mod_lt; lia).
  assert (H2 : n mod 10 < 10) by (apply N.mod_lt; lia).
  split.
  - cbn [forallb]. rewrite (digit_char _ H1), (digit_char _ H2). reflexivity.
  - unfold digits_value. cbn [fold_left]. rewrite !digit_val_char.
    pose proof (N.div_mod n 10 ltac:(lia)).
    assert (n / 10 < 10) by (apply N.Div0.div_lt_upper_bound; lia).
    rewrite (N.mod_small (n / 10) 10) by lia. lia.
Qed.

(** *** Stripping the formatting of a rendered amount *)

Lemma digit_kept (c : N) : is_digit c = true -> keep c = true.
Proof.
  intros H. unfold keep, is_formatting.
  rewrite (digit_not_ws c H). unfold is_digit in H. bool_arith.
  cbn. unfold thousands_sep.
  replace (c =? 46) with false by (symmetry; apply N.eqb_neq; lia).
  replace (c =? 82) with false by (symmetry; apply N.eqb_neq; lia).
  replace (c =? 36) with false by (symmetry; apply N.eqb_neq; lia).
  reflexivity.
Qed.

Lemma filter_keep_digits (ds : jsstring) :
  forallb is_digit ds = true -> filter keep ds = ds.
Proof.
  induction ds as [|d ds IH]; cbn [forallb filter]; [reflexivity|].
  intros H. apply andb_true_iff in H. destruct H as [Hd Hds].
  rewrite (digit_kept d Hd), (IH Hds). reflexivity.
Qed.

Lemma filter_keep_sep3 (l : jsstring) :
  forallb is_digit l = true -> forall k, filter keep (sep3 k l) = l.
Proof.
  induction l as [|d l IH]; intros H k; [reflexivity|].
  cbn [forallb] in H. apply andb_true_iff in H. destruct H as [Hd Hl].
  destruct k as [|[|[|[|k]]]]; cbn [sep3 filter];
    rewrite ?(digit_kept d Hd), (IH Hl); reflexivity.
Qed.

Lemma filter_rev {A} (p : A -> bool) (l : list A) :
  filter p (rev l) = rev (filter p l).
Proof.
  induction l as [|x l IH]; [reflexivity|].
  cbn [rev filter]. rewrite filter_app, IH. cbn [filter].
  destruct (p x); [reflexivity|]. rewrite app_nil_r. reflexivity.
Qed.

Lemma filter_keep_group (ds : jsstring) :
  forallb is_digit ds = true -> filter keep (group_thousands ds) = ds.
Proof.
  intros H. unfold group_thousands.
  rewrite filter_rev, filter_keep_sep3, rev_involutive; [reflexivity|].
  rewrite forallb_rev. exact H.
Qed.

Lemma span_digits_stop (ds rest : jsstring) (c : N) :
  forallb is_digit ds = true -> is_digit c = false ->
  span is_digit (ds ++ c :: rest) = (ds, c :: rest).
Proof.
  intros Hds Hc. induction ds as [|d ds IH]; cbn [app span].
  - rewrite Hc. reflexivity.
  - cbn [forallb] in Hds. apply andb_true_iff in Hds. destruct Hds as [Hd Hds].
    rewrite Hd, (IH Hds). reflexivity.
Qed.

(** What is left of a rendered amount once the formatting is dropped: the
    sign, the digits of the integer part, the comma and two decimals. *)
Lemma render_stripped (cents : Z) :
  filter keep (render cents)
  = (if (cents <? 0)%Z then [minus_sign] else [])
    ++ to_digits (Z.abs_N cents / 100)
    ++ [decimal_comma]
    ++ two_digits (Z.abs_N cents mod 100).
Proof.
  unfold render.
  destruct (to_digits_spec (Z.abs_N cents / 100)) as [_ [Hd _]].
  assert (Hm : Z.abs_N cents mod 100 < 100) by (apply N.mod_lt; lia).
  destruct (two_digits_spec _ Hm) as [Hd2 _].
  rewrite !filter_app, (filter_keep_group _ Hd), (filter_keep_digits _ Hd2).
  destruct (cents <? 0)%Z; reflexivity.
Qed.

(** Reading back a rendered amount gives that amount. *)
Lemma currencyRemoveMaskToNumber_render (cents : Z) :
  exists q,
    currencyRemoveMaskToNumber (render cents) = Finite q
    /\ (q == cents # 100)%Q.
Proof.
  unfold currencyRemoveMaskToNumber. rewrite render_stripped.
  set (a := Z.abs_N cents).
  destruct (to_digits_spec (a / 100)) as [Hne [Hd Hv]].
  assert (Hm : a mod 100 < 100) by (apply N.mod_lt; lia).
  destruct (two_digits_spec _ Hm) as [Hd2 Hv2].
  set (ds := to_digits (a / 100)) in *.
  set (dd := two_digits (a mod 100)) in *.
  assert (Hcomma : is_digit decimal_comma = false) by reflexivity.
  assert (Hval : digits_value (ds ++ dd) = a).
  { rewrite digits_value_app, Hv, Hv2. unfold dd. cbn [two_digits length].
    change (10 ^ N.of_nat 2) with 100.
    pose proof (N.div_mod a 100 ltac:(lia)). lia. }
  assert (Hparse : read_unsigned (ds ++ [decimal_comma] ++ dd)
                   = Finite (inject_Z (Z.of_N a) / inject_Z 100)%Q).
  { unfold read_unsigned. cbn [app].
    rewrite (span_digits_stop ds dd decimal_comma Hd Hcomma).
    rewrite N.eqb_refl, Hd2. cbn [andb].
    destruct (ds ++ dd) as [|x l] eqn:Happ.
    - destruct ds; [congruence|discriminate Happ].
    - rewrite Hval. reflexivity. }
  clearbody ds dd.
  destruct (cents <? 0)%Z eqn:Hsign.
  - change ([minus_sign] ++ ds ++ [decimal_comma] ++ dd)
      with (minus_sign :: (ds ++ [decimal_comma] ++ dd)).
    cbv iota beta. rewrite N.eqb_refl, Hparse.
    eexists; split; [reflexivity|].
    apply Z.ltb_lt in Hsign. unfold a.
    rewrite N2Z.inj_abs_N, Z.abs_neq by lia.
    unfold Qeq, Qdiv, Qmult, Qinv, Qopp, inject_Z; cbn. lia.
  - change ([] ++ ds ++ [decimal_comma] ++ dd)
      with (ds ++ [decimal_comma] ++ dd).
    destruct ds as [|d0 ds0]; [congruence|].
    assert (Hd0 : (d0 =? minus_sign) = false).
    { cbn [forallb] in Hd. apply andb_true_iff in Hd. destruct Hd as [Hd _].
      unfold is_digit in Hd. bool_arith. apply N.eqb_neq.
      unfold minus_sign. lia. }
    change ((d0 :: ds0) ++ [decimal_comma] ++ dd)
      with (d0 :: (ds0 ++ [decimal_comma] ++ dd)) at 1.
    cbv iota beta. rewrite Hd0.
    change (d0 :: (ds0 ++ [decimal_comma] ++ dd))
      with ((d0 :: ds0) ++ [decimal_comma] ++ dd).
    rewrite Hparse.
    eexists; split; [reflexivity|].
    apply Z.ltb_ge in Hsign. unfold a.
    rewrite N2Z.inj_abs_N, Z.abs_eq by lia.
    unfold Qeq, Qdiv, Qmult, Qinv, inject_Z; cbn. lia.
Qed.

(** *** Idempotence of the mask *)

Lemma read_unsigned_not_infinite (u : jsstring) :
  read_unsigned u = NaN \/ exists q, read_unsigned u = Finite q.
Proof.
  unfold read_unsigned. destruct (span is_digit u) as [int_part r1].
  destruct r1 as [|c r].
  - destruct (int_part ++ []); [left; reflexivity|right; eauto].
  - destruct ((c =? decimal_comma) && forallb is_digit r); [|left; reflexivity].
    destruct (int_part ++ r); [left; reflexivity|right; eauto].
Qed.

Lemma currencyRemoveMaskToNumber_not_infinite (v : jsstring) :
  currencyRemoveMaskToNumber v = NaN
  \/ exists q, currencyRemoveMaskToNumber v = Finite q.
Proof.
  unfold currencyRemoveMaskToNumber.
  destruct (filter keep v) as [|c r]; [left; reflexivity|].
  destruct (c =? minus_sign); [|apply read_unsigned_not_infinite].
  destruct (read_unsigned_not_infinite r) as [->|[q ->]];
    [left; reflexivity|right; cbn; eauto].
Qed.

(** Rounding to the nearest hundredth is exact on hundredths. *)
Lemma round_half_up_exact (q : Q) (c : Z) :
  (q == c # 100)%Q -> round_half_up q = c.
Proof.
  intros H. unfold round_half_up.
  assert (E : (q * inject_Z 100 + (1 # 2) == (2 * c + 1) # 2)%Q).
  { rewrite H. unfold Qeq, Qplus, Qmult, inject_Z; cbn. destruct c; lia. }
  rewrite (Qfloor_comp _ _ E). unfold Qfloor.
  symmetry. apply (Z.div_unique _ _ c 1); lia.
Qed.

Lemma round_floor_exact (q : Q) (c : Z) :
  (q == c # 100)%Q -> round_floor q = c.
Proof.
  intros H. unfold round_floor.
  assert (E : (q * inject_Z 100 == inject_Z c)%Q).
  { rewrite H. unfold Qeq, Qmult, inject_Z; cbn. lia. }
  rewrite (Qfloor_comp _ _ E). apply Qfloor_Z.
Qed.

(** C8.  For every raw input that reads, once the locale formatting is
    stripped, as a value that is not negative, masking the masked text
    gives the masked text again.  This holds for every way of rounding to
    hundredths that leaves hundredths unchanged. *)
Theorem currencyApplyMask_idempotent (round_cents : Q -> Z)
    (unparsed : jsstring -> jsstring) (raw : jsstring) :
  (forall q c, (q == c # 100)%Q -> round_cents q = c) ->
  number_ge (currencyRemoveMaskToNumber raw) 0 = true ->
  currencyApplyMask round_cents unparsed
    (currencyApplyMask round_cents unparsed raw)
  = currencyApplyMask round_cents unparsed raw.
Proof.
  intros Hexact Hge.
  destruct (currencyRemoveMaskToNumber_not_infinite raw) as [Hn|[q Hq]].
  - rewrite Hn in Hge. discriminate Hge.
  - unfold currencyApplyMask at 2 3. rewrite Hq.
    unfold currencyApplyMask.
    destruct (currencyRemoveMaskToNumber_render (round_cents q)) as [q' [-> Hq']].
    rewrite (Hexact q' (round_cents q) Hq'). reflexivity.
Qed.

Lemma currencyApplyMask_idempotent_witness :
  number_ge (currencyRemoveMaskToNumber (lit "1234,5")) 0 = true
  /\ currencyApplyMask round_half_up (fun s => s) (lit "1234,5") = lit "R$1.234,50"
  /\ currencyApplyMask round_half_up (fun s => s) (lit "R$1.234,50")
     = lit "R$1.234,50".
Proof.
  split; [vm_compute; reflexivity|].
  split; [vm_compute; reflexivity|].
  assert (E : currencyApplyMask round_half_up (fun s => s) (lit "1234,5")
              = lit "R$1.234,50") by (vm_compute; reflexivity).
  rewrite <- E at 1 2.
  apply (currencyApplyMask_idempotent round_half_up (fun s => s) (lit "1234,5")).
  - exact round_half_up_exact.
  - vm_compute; reflexivity.
Defined.

End CurrencyFacts.

(** ** Further properties of the course form *)

Module CourseFormExtra.
Import JS JSFacts CourseForm.

(** *** Sets of strings *)

Lemma includes_In (arr : list jsstring) (x : jsstring) :
  includes arr x = true <-> In x arr.
Proof.
  unfold includes. rewrite existsb_exists. split.
  - intros [y [Hy E]]. apply str_eqb_eq in E. subst y. exact Hy.
  - intros H. exists x. split; [exact H|]. apply str_eqb_eq. reflexivity.
Qed.

Lemma includes_false (arr : list jsstring) (x : jsstring) :
  includes arr x = false <-> ~ In x arr.
Proof.
  rewrite <- includes_In. destruct (includes arr x); split;
    congruence || (intros H; exfalso; apply H; reflexivity) || auto.
Qed.

Lemma set_add_In (s : list jsstring) (x y : jsstring) :
  In y (set_add s x) <-> In y s \/ y = x.
Proof.
  unfold set_add. destruct (includes s x) eqn:E.
  - apply includes_In in E. split; [auto|]. intros [H| ->]; assumption.
  - rewrite in_app_iff. cbn. split.
    + intros [H|[H|[]]]; auto.
    + intros [H|H]; auto.
Qed.

Lemma set_add_NoDup (s : list jsstring) (x : jsstring) :
  NoDup s -> NoDup (set_add s x).
Proof.
  intros H. unfold set_add. destruct (includes s x) eqn:E; [exact H|].
  apply includes_false in E.
  apply NoDup_app; [exact H|constructor; [intros []|constructor]|].
  intros y Hy [<-|[]]. exact (E Hy).
Qed.

Lemma new_Set_acc (arr : list jsstring) :
  forall acc,
    NoDup acc ->
    NoDup (fold_left set_add arr acc)
    /\ forall y, In y (fold_left set_add arr acc) <-> In y acc \/ In y arr.
Proof.
  induction arr as [|x arr IH]; intros acc Hacc; cbn [fold_left].
  - split; [exact Hacc|]. intros y. cbn. tauto.
  - destruct (IH (set_add acc x) (set_add_NoDup acc x Hacc)) as [Hn Hin].
    split; [exact Hn|]. intros y. rewrite Hin, set_add_In. cbn.
    split; intros H; intuition (subst; auto).
Qed.

Lemma new_Set_spec (arr : list jsstring) :
  NoDup (new_Set arr) /\ forall y, In y (new_Set arr) <-> In y arr.
Proof.
  destruct (new_Set_acc arr [] (NoDup_nil _)) as [Hn Hin].
  split; [exact Hn|]. intros y. unfold new_Set. rewrite Hin. cbn. tauto.
Qed.

Lemma set_delete_In (s : list jsstring) (x y : jsstring) :
  In y (set_delete s x) <-> In y s /\ y <> x.
Proof.
  unfold set_delete. rewrite filter_In, negb_true_iff.
  split; intros [H E]; (split; [exact H|]).
  - intros ->. rewrite (proj2 (str_eqb_eq x x) eq_refl) in E. discriminate E.
  - destruct (str_eqb x y) eqn:F; [|reflexivity].
    apply str_eqb_eq in F. congruence.
Qed.

Lemma set_delete_NoDup (s : list jsstring) (x : jsstring) :
  NoDup s -> NoDup (set_delete s x).
Proof. intros H. apply NoDup_filter. exact H. Qed.

(** X1.  Clicking the badge of an aircraft flips whether that aircraft is
    selected and leaves every other aircraft as it was; the list stored
    afterwards has no repeated id, even if the list before had. *)
Theorem badge_onClick_toggles (a_id : jsstring) (v : CoursePayload.t) :
  let before := nullish (CoursePayload.aeronaves v) [] in
  exists after,
    CoursePayload.aeronaves (badge_onClick a_id v) = val after
    /\ NoDup after
    /\ (In a_id after <-> ~ In a_id before)
    /\ (forall x, x <> a_id -> (In x after <-> In x before)).
Proof.
  cbn zeta. unfold badge_onClick, Array_from. cbn [setValue_aeronaves CoursePayload.aeronaves].
  set (before := nullish (CoursePayload.aeronaves v) []).
  destruct (new_Set_spec before) as [Hn Hin].
  eexists. split; [reflexivity|].
  destruct (includes before a_id) eqn:E.
  - apply includes_In in E. split; [apply set_delete_NoDup; exact Hn|]. split.
    + rewrite set_delete_In. split; [intros [_ H]; congruence|tauto].
    + intros x Hx. rewrite set_delete_In, Hin. tauto.
  - apply includes_false in E. split; [apply set_add_NoDup; exact Hn|]. split.
    + rewrite set_add_In. tauto.
    + intros x Hx. rewrite set_add_In, Hin. tauto.
Qed.

(** X2.  In the per-module aircraft selector, ticking a box puts the
    aircraft in the list handed to [onChange] and unticking removes it; the
    other aircraft of the row are kept, and the list has no repeated id. *)
Theorem onCheckedChange_sets (value : list jsstring) (a_id : jsstring)
    (c : CheckedState) :
  let next := onCheckedChange value a_id c in
  NoDup next
  /\ (In a_id next <-> truthy_checked c = true)
  /\ (forall x, x <> a_id -> (In x next <-> In x value)).
Proof.
  cbn zeta. unfold onCheckedChange, Array_from.
  destruct (new_Set_spec value) as [Hn Hin].
  destruct (truthy_checked c).
  - split; [apply set_add_NoDup; exact Hn|]. split.
    + rewrite set_add_In. tauto.
    + intros x Hx. rewrite set_add_In, Hin. tauto.
  - split; [apply set_delete_NoDup; exact Hn|]. split.
    + rewrite set_delete_In. split; [intros [_ H]; congruence|discriminate].
    + intros x Hx. rewrite set_delete_In, Hin. tauto.
Qed.

(** *** Module rows *)

Lemma fold_holes_nonempty {A} (l : list (option A)) (a : option A)
    (acc : list (option A)) :
  fold_right
    (fun x acc =>
       match x, acc with
       | None, [] => []
       | _, _ => x :: acc
       end)
    (a :: acc) l
  = l ++ a :: acc.
Proof.
  induction l as [|x l IH]; [reflexivity|].
  cbn [fold_right app]. rewrite IH.
  destruct x; [reflexivity|]. destruct l; reflexivity.
Qed.

Lemma drop_trailing_holes_last {A} (l : list (option A)) (e : A) :
  drop_trailing_holes (l ++ [Some e]) = l ++ [Some e].
Proof.
  unfold drop_trailing_holes. rewrite fold_right_app. cbn [fold_right].
  apply fold_holes_nonempty.
Qed.

(** Dropping the trailing empty slots moves no entry. *)
Lemma drop_trailing_holes_nth {A} (l : list (option A)) :
  forall i e,
    nth_error (drop_trailing_holes l) i = Some (Some e)
    <-> nth_error l i = Some (Some e).
Proof.
  induction l as [|x l IH]; intros i e.
  - reflexivity.
  - change (drop_trailing_holes (x :: l))
      with (match x, drop_trailing_holes l with
            | None, [] => []
            | _, _ => x :: drop_trailing_holes l
            end).
    destruct i as [|i].
    + destruct x as [a|]; [reflexivity|].
      destruct (drop_trailing_holes l); cbn; split; discriminate.
    + specialize (IH i e).
      change (nth_error (x :: l) (S i)) with (nth_error l i).
      destruct x as [a|]; [exact IH|].
      destruct (drop_trailing_holes l) eqn:E; [|exact IH].
      rewrite <- IH. destruct i; cbn; split; discriminate.
Qed.

Lemma drop_trailing_holes_nil {A} (l : list (option A)) :
  drop_trailing_holes l = [] <-> forall x, In x l -> x = None.
Proof.
  induction l as [|x l IH].
  - cbn. split; [intros _ x []|reflexivity].
  - change (drop_trailing_holes (x :: l))
      with (match x, drop_trailing_holes l with
            | None, [] => []
            | _, _ => x :: drop_trailing_holes l
            end).
    destruct x as [a|].
    + split; [discriminate|]. intros H.
      specialize (H (Some a) (or_introl eq_refl)). discriminate H.
    + destruct (drop_trailing_holes l) eqn:E.
      * split; [|reflexivity]. intros _ y [<-|Hy]; [reflexivity|].
        apply (proj1 IH eq_refl y Hy).
      * split; [discriminate|]. intros H.
        assert (Hl : forall y, In y l -> y = None)
          by (intros y Hy; apply H; right; exact Hy).
        apply IH in Hl. discriminate Hl.
Qed.

Lemma isEmptyObject_modulos (e : Errors.t) :
  isEmptyObject e = true -> Errors.modulos e = modulos_ok.
Proof.
  unfold isEmptyObject. intros H. apply andb_true_iff in H.
  destruct H as [_ H]. destruct (Errors.modulos e); [reflexivity| |];
    discriminate H.
Qed.

(** The title rule of a module row. *)
Lemma moduleSchema_titulo (m : CourseModule.t) :
  (exists e fe, moduleSchema m = Some e /\ ModuleErrors.titulo e = Some fe)
  <-> truthy_str (CourseModule.titulo m) = false.
Proof.
  unfold moduleSchema, no_module_errors. cbn [ModuleErrors.etapa
    ModuleErrors.titulo ModuleErrors.limite ModuleErrors.valor ModuleErrors.aviao].
  destruct (CourseModule.titulo m) as [| |[|c s]];
    cbn [z_string first_issue min1 truthy_str].
  1-3: split; [reflexivity|intros _];
    destruct (z_string [min1 None] (CourseModule.etapa m));
    do 2 eexists; split; reflexivity.
  split; [|discriminate]. intros [e [fe [He Hfe]]].
  destruct (z_string [min1 None] (CourseModule.etapa m));
    destruct (z_string [min1 None] (CourseModule.limite m));
    destruct (optional (z_string []) (CourseModule.valor m));
    destruct (optional z_array_string (CourseModule.aviao m));
    inversion He; subst e; discriminate Hfe.
Qed.

Lemma modulos_error_at_spec (unmask : jsstring -> number)
    (v : CoursePayload.t) (l : list CourseModule.t) (i : nat)
    (e : ModuleErrors.t) :
  CoursePayload.modulos v = val l ->
  (modulos_error_at (courseSchema unmask v) i = Some e
   <-> exists m, nth_error l i = Some m /\ moduleSchema m = Some e).
Proof.
  intros Hl. unfold modulos_error_at, courseSchema. cbn [Errors.modulos].
  rewrite Hl. unfold z_array_modules.
  assert (Hnth : nth_error (drop_trailing_holes (map moduleSchema l)) i
                 = Some (Some e)
                 <-> exists m, nth_error l i = Some m /\ moduleSchema m = Some e).
  { rewrite drop_trailing_holes_nth, nth_error_map.
    destruct (nth_error l i) as [m|]; cbn.
    - split; [intros H; exists m; split; [reflexivity|congruence]|].
      intros [m' [Hm He]]. congruence.
    - split; [discriminate|]. intros [m' [Hm _]]. discriminate Hm. }
  destruct (drop_trailing_holes (map moduleSchema l)) as [|o es] eqn:E.
  - rewrite <- Hnth. destruct i; cbn; split; discriminate.
  - rewrite <- Hnth.
    destruct (nth_error (o :: es) i) as [[e'|]|]; split; congruence.
Qed.

(** X3.  The errors a module row shows are those of the module at the same
    position: row [i] has an error entry exactly when the module at [i]
    breaks [moduleSchema], and it shows a title error exactly when that
    module's title is missing or empty. *)
Theorem module_row_errors (unmask : jsstring -> number)
    (v : CoursePayload.t) (l : list CourseModule.t) (i : nat) :
  CoursePayload.modulos v = val l ->
  (forall e,
      modulos_error_at (courseSchema unmask v) i = Some e
      <-> exists m, nth_error l i = Some m /\ moduleSchema m = Some e)
  /\ ((exists e fe,
          modulos_error_at (courseSchema unmask v) i = Some e
          /\ ModuleErrors.titulo e = Some fe)
      <-> exists m,
            nth_error l i = Some m
            /\ truthy_str (CourseModule.titulo m) = false).
Proof.
  intros Hl. split.
  - intros e. apply modulos_error_at_spec. exact Hl.
  - split.
    + intros [e [fe [He Hfe]]].
      apply (modulos_error_at_spec unmask v l i e Hl) in He.
      destruct He as [m [Hm Hs]]. exists m. split; [exact Hm|].
      apply moduleSchema_titulo. eauto.
    + intros [m [Hm Ht]]. apply moduleSchema_titulo in Ht.
      destruct Ht as [e [fe [Hs Hfe]]]. exists e, fe. split; [|exact Hfe].
      apply (modulos_error_at_spec unmask v l i e Hl). eauto.
Qed.

Lemma module_row_errors_witness :
  CoursePayload.modulos untitled_course = val [blank_module]
  /\ exists e fe,
       modulos_error_at
         (courseSchema Currency.currencyRemoveMaskToNumber untitled_course) 0
       = Some e
       /\ ModuleErrors.titulo e = Some fe.
Proof.
  split; [reflexivity|].
  destruct (module_row_errors Currency.currencyRemoveMaskToNumber
              untitled_course [blank_module] 0 eq_refl) as [_ H].
  apply H. exists blank_module. split; reflexivity.
Defined.

(** X4.  After [addModule] validation always fails: the new row has an
    empty title, so the error map of the submitted values has a title error
    at the new row's position, whatever the form held.  The toast shown is
    the one [onInvalid] builds from the error map the form state held
    before: on a form with no recorded errors it is the generic message,
    and a second submission of the same values shows the module-specific
    one. *)
Theorem addModule_blocks_submit (unmask : jsstring -> number)
    (v : CoursePayload.t) (formState_errors : Errors.t) :
  let rows := nullish (CoursePayload.modulos v) [] in
  exists errors e fe,
    submit unmask formState_errors (addModule v)
    = Rejected errors (onInvalid formState_errors)
    /\ errors = courseSchema unmask (addModule v)
    /\ modulos_error_at errors (length rows) = Some e
    /\ ModuleErrors.titulo e = Some fe
    /\ description (onInvalid no_errors) = generic_message
    /\ (exists t2,
          submit unmask errors (addModule v) = Rejected errors t2
          /\ description t2 = module_title_message).
Proof.
  cbn zeta. set (rows := nullish (CoursePayload.modulos v) []).
  set (next := {| CourseModule.etapa := val (lit "etapa1");
                  CourseModule.titulo := val (lit "");
                  CourseModule.limite := val (lit "1");
                  CourseModule.valor := val (lit "");
                  CourseModule.aviao := undefined |}).
  assert (Hm : CoursePayload.modulos (addModule v) = val (rows ++ [next]))
    by reflexivity.
  destruct (proj2 (moduleSchema_titulo next) eq_refl) as [e [fe [Hs Hfe]]].
  set (errors := courseSchema unmask (addModule v)).
  assert (Hat : modulos_error_at errors (length rows) = Some e).
  { apply (modulos_error_at_spec unmask (addModule v) (rows ++ [next])
             (length rows) e Hm).
    exists next. split; [|exact Hs].
    rewrite nth_error_app2, Nat.sub_diag by lia. reflexivity. }
  assert (Htitle : hasModuleTitleError errors = true).
  { apply CourseFormFacts.hasModuleTitleError_iff. exists (length rows).
    unfold modulos_error_at in Hat. unfold module_title_error_at.
    destruct (Errors.modulos errors) as [| |entries]; try discriminate Hat.
    destruct (nth_error entries (length rows)) as [[e'|]|] eqn:En;
      try discriminate Hat.
    inversion Hat; subst e'. exists entries, e, fe. auto. }
  assert (Hrej : isEmptyObject errors = false).
  { destruct (isEmptyObject errors) eqn:E; [|reflexivity].
    apply isEmptyObject_modulos in E. unfold modulos_error_at in Hat.
    rewrite E in Hat. discriminate Hat. }
  exists errors, e, fe.
  split; [unfold submit; fold errors; rewrite Hrej; reflexivity|].
  split; [reflexivity|]. split; [exact Hat|]. split; [exact Hfe|].
  split; [reflexivity|].
  exists (onInvalid errors).
  split; [unfold submit; fold errors; rewrite Hrej; reflexivity|].
  unfold onInvalid; cbn [description]; rewrite Htitle; reflexivity.
Qed.

Lemma firstn_nth_error {A} (l : list A) (n i : nat) :
  (i < n)%nat -> nth_error (firstn n l) i = nth_error l i.
Proof.
  revert n i. induction l as [|x l IH]; intros n i Hi.
  - rewrite firstn_nil. reflexivity.
  - destruct n as [|n]; [lia|]. destruct i as [|i]; [reflexivity|].
    cbn. apply IH. lia.
Qed.

Lemma skipn_nth_error {A} (l : list A) (n i : nat) :
  nth_error (skipn n l) i = nth_error l (n + i).
Proof.
  revert l. induction n as [|n IH]; intros l; [reflexivity|].
  destruct l as [|x l]; [destruct i; reflexivity|]. cbn. apply IH.
Qed.

(** X5.  [removeModule] at the position of an existing row removes that row
    and only it: the rows before keep their place and the rows after move
    up by one.  At a position past the last row it changes no row.  Removing
    the row that [addModule] has just added gives back the rows there were
    before. *)
Theorem removeModule_spec (index : nat) (v : CoursePayload.t) :
  let rows := nullish (CoursePayload.modulos v) [] in
  exists rows',
    CoursePayload.modulos (removeModule index v) = val rows'
    /\ ((index < length rows)%nat ->
        S (length rows') = length rows
        /\ (forall i, (i < index)%nat -> nth_error rows' i = nth_error rows i)
        /\ (forall i, (index <= i)%nat ->
                      nth_error rows' i = nth_error rows (S i)))
    /\ ((length rows <= index)%nat -> rows' = rows)
    /\ CoursePayload.modulos (removeModule (length rows) (addModule v))
       = val rows.
Proof.
  cbn zeta. set (rows := nullish (CoursePayload.modulos v) []).
  exists (splice1 index rows). split; [reflexivity|]. unfold splice1.
  split; [|split].
  - intros Hi. split; [|split].
    + rewrite length_app, length_firstn, length_skipn. lia.
    + intros i Hlt. rewrite nth_error_app1 by (rewrite length_firstn; lia).
      apply firstn_nth_error. exact Hlt.
    + intros i Hge. rewrite nth_error_app2 by (rewrite length_firstn; lia).
      rewrite length_firstn, skipn_nth_error. f_equal. lia.
  - intros Hge. rewrite firstn_all2 by lia. rewrite skipn_all2 by lia.
    apply app_nil_r.
  - unfold removeModule, addModule.
    cbn [setValue_modulos CoursePayload.modulos nullish]. fold rows.
    unfold splice1. rewrite firstn_app, Nat.sub_diag, firstn_all.
    rewrite skipn_all2 by (rewrite length_app; cbn; lia).
    cbn. rewrite !app_nil_r. reflexivity.
Qed.

(** *** The installment count, again *)

Lemma filter_idempotent {A} (p : A -> bool) (l : list A) :
  filter p (filter p l) = filter p l.
Proof.
  induction l as [|x l IH]; [reflexivity|]. cbn [filter].
  destruct (p x) eqn:E; [cbn [filter]; rewrite E, IH|rewrite IH]; reflexivity.
Qed.

Lemma filter_all {A} (p : A -> bool) (l : list A) :
  filter p l = l <-> forallb p l = true.
Proof.
  split.
  - intros H. rewrite <- H. apply forallb_filter.
  - induction l as [|x l IH]; [reflexivity|]. cbn [forallb filter].
    intros H. apply andb_true_iff in H. destruct H as [Hx Hl].
    rewrite Hx, (IH Hl). reflexivity.
Qed.

(** X7.  The normalisation of the [parcelas] input is idempotent and never
    lengthens the text; it leaves a text unchanged exactly when the text
    holds digits only. *)
Theorem onlyDigits_idempotent (value : jsstring) :
  onlyDigits (onlyDigits value) = onlyDigits value
  /\ (length (onlyDigits value) <= length value)%nat
  /\ (onlyDigits value = value <-> forallb is_digit value = true).
Proof.
  unfold onlyDigits. rewrite !replace_non_digits.
  split; [apply filter_idempotent|]. split; [apply filter_length_le|].
  apply filter_all.
Qed.

End CourseFormExtra.

(** ** Further properties of the CMS component form *)

Module SiteComponentsFormExtra.
Import JS JSFacts SiteComponentsForm SiteComponentsFormFacts.

(** *** The [short_code] input, again *)

Lemma collapse_runs_clean (s : jsstring) :
  Forall (fun c => is_ws c = false) s -> collapse_runs s = s.
Proof.
  induction 1 as [|c r Hc _ IH]; [reflexivity|].
  rewrite (collapse_cons_other c r Hc), IH. reflexivity.
Qed.

Lemma short_code_collapse (value : jsstring) :
  short_code_onChange value = collapse_runs value.
Proof.
  unfold short_code_onChange, replace_class_plus.
  apply replace_class_plus_fuel_collapse. lia.
Qed.

Lemma filter_other_dropWhile (r : jsstring) :
  filter other (dropWhile is_ws r) = filter other r.
Proof.
  induction r as [|d r IH]; [reflexivity|]. cbn [dropWhile].
  destruct (is_ws d) eqn:Hd; [|reflexivity].
  cbn [filter]. unfold other at 2. rewrite Hd. exact IH.
Qed.

Lemma collapse_runs_bounded (n : nat) :
  forall s,
    (length s <= n)%nat ->
    (length (collapse_runs s) <= length s)%nat
    /\ filter (fun c => negb (c =? 95)) (collapse_runs s) = filter other s.
Proof.
  induction n as [|n IH]; intros s Hn.
  - destruct s; [split; [cbn; lia|reflexivity]|cbn in Hn; lia].
  - destruct s as [|c r]; [split; [cbn; lia|reflexivity]|].
    cbn [length] in Hn. destruct (is_ws c) eqn:Hc.
    + rewrite (collapse_cons_ws c r Hc).
      pose proof (dropWhile_length is_ws r) as Hd.
      destruct (IH (dropWhile is_ws r) ltac:(lia)) as [Hlen Hf].
      split; [cbn [lit list_ascii_of_string map app length]; lia|].
      cbn [lit list_ascii_of_string map app filter].
      change (negb (N_of_ascii "_" =? 95)) with false. cbv iota.
      rewrite Hf, filter_other_dropWhile. unfold other at 2.
      rewrite Hc. reflexivity.
    + rewrite (collapse_cons_other c r Hc).
      destruct (IH r ltac:(lia)) as [Hlen Hf].
      split; [cbn [length]; lia|].
      cbn [filter]. rewrite Hf.
      replace (other c) with (negb (c =? 95))
        by (unfold other; rewrite Hc; reflexivity).
      reflexivity.
Qed.

(** X8.  The normalisation of [short_code] is idempotent and never
    lengthens the text; apart from the underscores, the stored value holds
    exactly the typed code units that are neither white space nor
    underscore, in the order typed. *)
Theorem short_code_idempotent (value : jsstring) :
  short_code_onChange (short_code_onChange value) = short_code_onChange value
  /\ (length (short_code_onChange value) <= length value)%nat
  /\ filter (fun c => negb (c =? 95)) (short_code_onChange value)
     = filter (fun c => negb (is_ws c) && negb (c =? 95)) value.
Proof.
  rewrite !short_code_collapse.
  destruct (collapse_runs_bounded (length value) value (le_n _)) as [Hlen Hf].
  split; [|split; [exact Hlen|exact Hf]].
  apply collapse_runs_clean, collapse_runs_no_ws.
Qed.

(** X9.  The stored [short_code] is empty only when nothing was typed: the
    schema's "required" rule accepts the field after any non-empty input,
    white space alone included (it is stored as one underscore). *)
Theorem short_code_required (value : jsstring) (v : FormData.t) :
  (short_code_onChange value = [] <-> value = [])
  /\ (FormErrors.short_code (schema (short_code_field_onChange value v)) = None
      <-> value <> [])
  /\ (value <> [] -> forallb is_ws value = true ->
      short_code_onChange value = lit "_").
Proof.
  rewrite short_code_collapse.
  assert (Hnil : collapse_runs value = [] <-> value = []).
  { destruct value as [|c r]; [split; reflexivity|].
    split; [|discriminate]. destruct (is_ws c) eqn:Hc.
    - rewrite (collapse_cons_ws c r Hc). discriminate.
    - rewrite (collapse_cons_other c r Hc). discriminate. }
  split; [exact Hnil|]. split.
  - cbn [schema FormErrors.short_code short_code_field_onChange
         FormData.short_code CourseForm.z_string CourseForm.first_issue].
    rewrite short_code_collapse.
    destruct value as [|c r]; [cbn; split; [discriminate|congruence]|].
    destruct (collapse_runs (c :: r)) as [|x l] eqn:E; cbn.
    + discriminate (proj1 Hnil eq_refl).
    + split; [discriminate|reflexivity].
  - intros Hne Hall. destruct value as [|c r]; [congruence|].
    cbn [forallb] in Hall. apply andb_true_iff in Hall.
    destruct Hall as [Hc Hr]. rewrite (collapse_cons_ws c r Hc).
    replace (dropWhile is_ws r) with (@nil N); [reflexivity|].
    clear - Hr. induction r as [|d r IH]; [reflexivity|].
    cbn [forallb] in Hr. apply andb_true_iff in Hr. destruct Hr as [Hd Hr].
    cbn [dropWhile]. rewrite Hd. apply IH. exact Hr.
Qed.

(** *** The gallery discriminator, again *)

Lemma NonDecimalIntegerLiteral_other (c : N) (l : jsstring) :
  c <> 48 -> NonDecimalIntegerLiteral (c :: l) = None.
Proof.
  intros Hc. destruct c as [|p]; [reflexivity|].
  do 6 (try (destruct p as [p|p|]; try reflexivity)).
  congruence.
Qed.

Lemma NonDecimalIntegerLiteral_digits (s : jsstring) :
  forallb is_digit s = true -> NonDecimalIntegerLiteral s = None.
Proof.
  intros H. destruct s as [|c l]; [reflexivity|].
  destruct (N.eq_dec c 48) as [->|Hc];
    [|apply NonDecimalIntegerLiteral_other; exact Hc].
  destruct l as [|m ds]; [reflexivity|].
  cbn [forallb] in H. apply andb_true_iff in H. destruct H as [_ H].
  apply andb_true_iff in H. destruct H as [Hm _].
  unfold is_digit in Hm. bool_arith.
  cbn [NonDecimalIntegerLiteral].
  replace (m =? 120) with false by (symmetry; apply N.eqb_neq; lia).
  replace (m =? 88) with false by (symmetry; apply N.eqb_neq; lia).
  replace (m =? 111) with false by (symmetry; apply N.eqb_neq; lia).
  replace (m =? 79) with false by (symmetry; apply N.eqb_neq; lia).
  replace (m =? 98) with false by (symmetry; apply N.eqb_neq; lia).
  replace (m =? 66) with false by (symmetry; apply N.eqb_neq; lia).
  reflexivity.
Qed.

(** [Number] of a non-empty string of digits is its decimal value. *)
Lemma Number_digits (s : jsstring) :
  s <> [] -> forallb is_digit s = true ->
  exists q,
    Number s = Finite q /\ (q == inject_Z (Z.of_N (digits_value s)))%Q.
Proof.
  intros Hne H. unfold Number. rewrite (trim_digits s H).
  destruct s as [|c r]; [congruence|].
  rewrite (NonDecimalIntegerLiteral_digits _ H).
  assert (Hc : is_digit c = true)
    by (cbn [forallb] in H; apply andb_true_iff in H; tauto).
  unfold is_digit in Hc. bool_arith.
  unfold StrDecimalLiteral.
  replace (c =? 45) with false by (symmetry; apply N.eqb_neq; lia).
  replace (c =? 43) with false by (symmetry; apply N.eqb_neq; lia).
  unfold StrUnsignedDecimalLiteral.
  replace (str_eqb (c :: r) (lit "Infinity")) with false.
  2:{ cbn [lit list_ascii_of_string map str_eqb].
      replace (c =? N_of_ascii "I") with false; [reflexivity|].
      symmetry; apply N.eqb_neq. cbn. lia. }
  rewrite (span_all is_digit (c :: r) H).
  rewrite app_nil_r. cbn [ExponentPart_opt length].
  eexists. split; [reflexivity|].
  change (Qpower (inject_Z 10) (0 - 0)) with 1%Q. apply Qmult_1_r.
Qed.

Lemma number_is_19_Z (q : Q) (z : Z) :
  (q == inject_Z z)%Q -> (number_is_19 (Finite q) = true <-> z = 19%Z).
Proof.
  intros Hq. unfold number_is_19.
  rewrite andb_true_iff, !Qle_bool_iff, Hq.
  unfold Qle, Qminus, Qplus, Qopp, half_ulp_19, inject_Z. cbn. lia.
Qed.

(** X10.  For a selected value written with decimal digits only, the
    gallery is on exactly when the digits denote the number 19; so ['19']
    turns it on and so does a zero-padded ['019'], through the numeric
    comparison. *)
Theorem isGallery_digits (v : jsstring) :
  v <> [] -> forallb is_digit v = true ->
  (isGallery v = true <-> digits_value v = 19)
  /\ (uploadsQuery_enabled (val v) = true <-> digits_value v = 19).
Proof.
  intros Hne Hd.
  assert (H : isGallery v = true <-> digits_value v = 19).
  { unfold isGallery, ToString.
    destruct (Number_digits v Hne Hd) as [q [-> Hq]].
    rewrite orb_true_iff, (number_is_19_Z q _ Hq), str_eqb_eq. split.
    - intros [->|Hz]; [reflexivity|lia].
    - intros Hv. right. lia. }
  split; [exact H|exact H].
Qed.

Lemma isGallery_digits_witness :
  isGallery (lit "019") = true /\ isGallery (lit "190") = false.
Proof.
  split.
  - apply (isGallery_digits (lit "019")); [discriminate|reflexivity|reflexivity].
  - destruct (isGallery (lit "190")) eqn:E; [|reflexivity].
    apply (isGallery_digits (lit "190")) in E;
      [discriminate E|discriminate|reflexivity].
Defined.

Lemma dropWhile_all (p : N -> bool) (s : jsstring) :
  forallb p s = true -> dropWhile p s = [].
Proof.
  induction s as [|c r IH]; [reflexivity|]. cbn [forallb dropWhile].
  intros H. apply andb_true_iff in H. destruct H as [Hc Hr].
  rewrite Hc. apply IH. exact Hr.
Qed.

(** X11.  With no content type selected the gallery is off: for a missing
    value, and for any value that is empty or white space only, the listing
    query is disabled (the empty text coerces to 0, not to 19). *)
Theorem isGallery_blank :
  uploadsQuery_enabled undefined = false
  /\ uploadsQuery_enabled null = false
  /\ (forall v, forallb is_ws v = true ->
                isGallery v = false /\ uploadsQuery_enabled (val v) = false).
Proof.
  split; [reflexivity|]. split; [reflexivity|].
  intros v Hv.
  assert (H : isGallery v = false).
  { unfold isGallery, ToString, Number, trim.
    rewrite (dropWhile_all is_ws v Hv). cbn [rev dropWhile].
    rewrite orb_false_r.
    destruct v as [|c r]; [reflexivity|].
    cbn [forallb] in Hv. apply andb_true_iff in Hv. destruct Hv as [Hc _].
    cbn [lit list_ascii_of_string map str_eqb].
    replace (c =? N_of_ascii "1") with false; [reflexivity|].
    symmetry. apply N.eqb_neq. intros ->. discriminate Hc. }
  split; [exact H|exact H].
Qed.

(** *** Hydrating the form from a loaded record *)

Lemma required_after_or (msg : option string) (x : js jsstring) :
  CourseForm.z_string [CourseForm.min1 msg] (val (or_str x (lit "")))
  = (if truthy_str x then None
     else Some {| CourseForm.code := CourseForm.too_small;
                  CourseForm.message := msg |}).
Proof. destruct x as [| |[|c s]]; reflexivity. Qed.

Lemma str_eqb_refl (a : jsstring) : str_eqb a a = true.
Proof. apply str_eqb_eq. reflexivity. Qed.

(** X12.  After [hydrateForm] every form field holds a string, so the
    schema never reports a type issue.  [nome], [tipo_conteudo] and
    [short_code] are reported (as too short) exactly when the record's value
    is missing, null or empty; [ordenar], [id_curso] and [obs] are never
    reported, whether [ordenar] came as a string or as a number; [ativo] is
    reported only for a non-empty value other than ['s'] and ['n'].  Without
    a record the form values are left alone. *)
Theorem hydrateForm_then_schema (NumberToString : number -> jsstring)
    (r : ComponentRecord.t) (values : FormData.t) :
  let v := hydrateForm NumberToString (val r) values in
  let errors := schema v in
  hydrateForm NumberToString undefined values = values
  /\ hydrateForm NumberToString null values = values
  /\ (FormErrors.nome errors = None
      <-> truthy_str (ComponentRecord.nome r) = true)
  /\ (FormErrors.tipo_conteudo errors = None
      <-> truthy_str (ComponentRecord.tipo_conteudo r) = true)
  /\ (FormErrors.short_code errors = None
      <-> truthy_str (ComponentRecord.short_code r) = true)
  /\ FormErrors.ordenar errors = None
  /\ FormErrors.id_curso errors = None
  /\ FormErrors.obs errors = None
  /\ (FormErrors.ativo errors = None
      <-> truthy_str (ComponentRecord.ativo r) = false
          \/ ComponentRecord.ativo r = val (lit "s")
          \/ ComponentRecord.ativo r = val (lit "n"))
  /\ (forall fe,
        In (Some fe)
           [FormErrors.nome errors; FormErrors.tipo_conteudo errors;
            FormErrors.ordenar errors; FormErrors.short_code errors;
            FormErrors.id_curso errors; FormErrors.ativo errors;
            FormErrors.obs errors] ->
        CourseForm.code fe <> CourseForm.invalid_type).
Proof.
  cbn zeta. split; [reflexivity|]. split; [reflexivity|].
  cbn [hydrateForm schema FormErrors.nome FormErrors.tipo_conteudo
       FormErrors.ordenar FormErrors.short_code FormErrors.id_curso
       FormErrors.ativo FormErrors.obs FormData.nome FormData.tipo_conteudo
       FormData.ordenar FormData.short_code FormData.id_curso FormData.ativo
       FormData.obs CourseForm.optional with_default].
  rewrite !required_after_or.
  assert (Hativo :
            CourseForm.z_enum CourseForm.sn None
              (val (or_str (ComponentRecord.ativo r) (lit "s"))) = None
            <-> truthy_str (ComponentRecord.ativo r) = false
                \/ ComponentRecord.ativo r = val (lit "s")
                \/ ComponentRecord.ativo r = val (lit "n")).
  { destruct (ComponentRecord.ativo r) as [| |[|c s]];
      try (cbn; split; [auto|reflexivity]).
    cbn [or_str truthy_str CourseForm.z_enum CourseForm.sn existsb].
    rewrite orb_false_r.
    destruct (str_eqb (c :: s) (lit "s") || str_eqb (c :: s) (lit "n")) eqn:E.
    - split; [intros _|reflexivity]. right.
      apply orb_true_iff in E. rewrite !str_eqb_eq in E.
      destruct E as [->| ->]; auto.
    - split; [discriminate|]. intros [H|[H|H]]; [discriminate H| |];
        injection H as Hc Hs; subst c s; vm_compute in E; discriminate E. }
  assert (Hcode :
            forall fe,
              CourseForm.z_enum CourseForm.sn None
                (val (or_str (ComponentRecord.ativo r) (lit "s"))) = Some fe ->
              CourseForm.code fe <> CourseForm.invalid_type).
  { intros fe. cbn [CourseForm.z_enum].
    destruct (existsb _ _); [discriminate|].
    intros H; inversion H; subst fe. discriminate. }
  split; [destruct (truthy_str (ComponentRecord.nome r)); split; congruence|].
  split; [destruct (truthy_str (ComponentRecord.tipo_conteudo r)); split;
          congruence|].
  split; [destruct (truthy_str (ComponentRecord.short_code r)); split;
          congruence|].
  split; [reflexivity|]. split; [reflexivity|]. split; [reflexivity|].
  split; [exact Hativo|].
  intros fe Hin. cbn [In] in Hin.
  destruct Hin as [H|[H|[H|[H|[H|[H|[H|[]]]]]]]];
    try discriminate H.
  - destruct (truthy_str (ComponentRecord.nome r)); inversion H; subst fe;
      discriminate.
  - destruct (truthy_str (ComponentRecord.tipo_conteudo r)); inversion H;
      subst fe; discriminate.
  - destruct (truthy_str (ComponentRecord.short_code r)); inversion H;
      subst fe; discriminate.
  - apply (Hcode fe H).
Qed.

(** *** The upload handler, again *)

(** X13.  When every upload of a non-empty batch resolves, every file is
    sent and stored in the order of the batch and the listing is refetched
    exactly once.  No notification is raised if the refetch resolves; if the
    refetch throws, the user gets the upload-failure notification although
    every file was uploaded.  Either way the previews are gone and the
    uploading flag is off. *)
Theorem handleFilesDrop_all_resolve (id : js jsstring)
    (up : list File -> File -> js jsstring -> option Thrown)
    (rf : nat -> option Thrown) (files : list File) (w : World) :
  files <> [] ->
  (forall i f, nth_error files i = Some f ->
               up (upload_calls w ++ firstn i files) f (meta id) = None) ->
  let w' := fst (handleFilesDrop id up rf files w) in
  upload_calls w' = upload_calls w ++ files
  /\ uploaded w' = uploaded w ++ files
  /\ refetches w' = S (refetches w)
  /\ toasts w' = match rf (refetches w) with
                 | None => toasts w
                 | Some e => toasts w ++ [failure_toast e]
                 end
  /\ localPreviews w' = []
  /\ isUploading w' = false.
Proof.
  intros Hne Hall.
  destruct (handleFilesDrop_run id up rf files w Hne)
    as [_ [Hlp [Hiu [_ Hcalls]]]].
  cbn zeta in *.
  rewrite (first_failure_None (upload_outcome id up) files (upload_calls w) Hall)
    in Hcalls.
  tauto.
Qed.

Lemma handleFilesDrop_all_resolve_witness :
  let w' := fst (handleFilesDrop undefined always_resolves refetch_resolves
                   [photo 1; photo 2] empty_world) in
  uploaded w' = [photo 1; photo 2] /\ refetches w' = 1%nat /\ toasts w' = [].
Proof.
  destruct (handleFilesDrop_all_resolve undefined always_resolves
              refetch_resolves [photo 1; photo 2] empty_world)
    as [_ [Hu [Hr [Ht _]]]];
    [discriminate|reflexivity|].
  cbn zeta. split; [exact Hu|]. split; [exact Hr|exact Ht].
Defined.

(** X14.  Accounting of one run on a non-empty batch.  The files sent are
    the first [n] files of the batch.  Either all of them were stored, the
    whole batch was sent and the listing was refetched once; or the last
    file sent is the only one not stored, nothing was refetched and exactly
    one notification was raised.  At most one notification is raised per
    batch. *)
Theorem handleFilesDrop_accounting (id : js jsstring)
    (up : list File -> File -> js jsstring -> option Thrown)
    (rf : nat -> option Thrown) (files : list File) (w : World) :
  files <> [] ->
  let w' := fst (handleFilesDrop id up rf files w) in
  (exists n,
      (n <= length files)%nat
      /\ upload_calls w' = upload_calls w ++ firstn n files
      /\ ((n = length files
           /\ uploaded w' = uploaded w ++ files
           /\ refetches w' = S (refetches w))
          \/ ((0 < n)%nat
              /\ uploaded w' = uploaded w ++ firstn (n - 1) files
              /\ refetches w' = refetches w
              /\ length (toasts w') = S (length (toasts w)))))
  /\ (length (toasts w') <= S (length (toasts w)))%nat.
Proof.
  intros Hne.
  destruct (handleFilesDrop_run id up rf files w Hne)
    as [_ [_ [_ [_ Hcalls]]]].
  cbn zeta in *. split.
  - destruct (first_failure _ (upload_calls w) files) as [[k e]|].
    + destruct Hcalls as [Hk [Hc [Hu [Hr Ht]]]].
      exists (S k). split; [lia|]. split; [exact Hc|]. right.
      split; [lia|]. rewrite Nat.sub_succ, Nat.sub_0_r.
      split; [exact Hu|]. split; [exact Hr|].
      rewrite Ht, length_app. cbn. lia.
    + destruct Hcalls as [Hc [Hu [Hr _]]].
      exists (length files). split; [lia|]. rewrite firstn_all.
      split; [exact Hc|]. left. auto.
  - destruct (first_failure _ (upload_calls w) files) as [[k e]|].
    + destruct Hcalls as [_ [_ [_ [_ Ht]]]]. rewrite Ht, length_app. cbn. lia.
    + destruct Hcalls as [_ [_ [_ Ht]]]. rewrite Ht.
      destruct (rf (refetches w)); [rewrite length_app; cbn|]; lia.
Qed.

Lemma handleFilesDrop_accounting_witness :
  let w' := fst (handleFilesDrop undefined second_call_fails refetch_resolves
                   [photo 1; photo 2; photo 3] empty_world) in
  (length (toasts w') <= 1)%nat.
Proof.
  destruct (handleFilesDrop_accounting undefined second_call_fails
              refetch_resolves [photo 1; photo 2; photo 3] empty_world)
    as [_ Ht]; [discriminate|].
  cbn zeta in *. exact Ht.
Defined.

(** *** The handler as a run of the page *)

Lemma alone_idle (id : js jsstring)
    (up : list File -> File -> js jsstring -> option Thrown)
    (rf : nat -> option Thrown) (fuel : nat) (p : Page) :
  running p = [] -> alone id up rf fuel p = p.
Proof. intros H. destruct fuel; cbn [alone]; [|rewrite H]; reflexivity. Qed.

(** From the first [await] on: the run on its own ends in the world the
    loop, the refetch and the [catch] / [finally] blocks compute at once. *)
Lemma alone_loop (id : js jsstring)
    (up : list File -> File -> js jsstring -> option Thrown)
    (rf : nat -> option Thrown) (rest : list File) :
  forall file W p fuel,
    running p = [await_uploadFile file rest] ->
    world p = call_uploadFile file W ->
    (length rest + 2 <= fuel)%nat ->
    world (alone id up rf fuel p)
    = leave (bind (for_of (file :: rest) (uploadFile id up))
               (fun _ => refetch rf) W)
    /\ running (alone id up rf fuel p) = [].
Proof.
  induction rest as [|next rest IH]; intros file W p fuel Hrun Hw Hfuel;
    (destruct fuel as [|fuel]; [lia|]);
    cbn [alone]; rewrite Hrun; cbn [settles_as step]; rewrite Hrun;
    cbn [nth_error]; rewrite Hw; cbn [call_uploadFile upload_calls];
    rewrite removelast_last;
    cbn [for_of]; rewrite !bind_run; unfold uploadFile at 1;
    destruct (up (upload_calls W) file (meta id)) as [e|] eqn:Hup;
    cbn [resume].
  - rewrite alone_idle by (cbn [running]; rewrite Hrun; reflexivity).
    cbn [world running]. rewrite Hw, Hrun. split; reflexivity.
  - destruct fuel as [|fuel]; [cbn in Hfuel; lia|].
    cbn [alone running]. rewrite Hrun.
    cbn [replace_at firstn skipn app settles_as step running nth_error
         world call_refetch refetches stored Nat.pred resume].
    rewrite Hw. cbn [call_uploadFile refetches].
    rewrite alone_idle
      by (destruct (rf (refetches W)); reflexivity).
    unfold ret, refetch. cbn [refetches].
    destruct (rf (refetches W)) as [e|]; cbn [world running];
      split; reflexivity.
  - rewrite alone_idle by (cbn [running]; rewrite Hrun; reflexivity).
    cbn [world running]. rewrite Hw, Hrun. split; reflexivity.
  - match goal with |- context [alone id up rf fuel ?p1] =>
      destruct (IH next (stored file (call_uploadFile file W)) p1 fuel)
        as [Hworld Hdone] end;
      [cbn [running]; rewrite Hrun; reflexivity
      |cbn [world]; rewrite Hw; reflexivity
      |cbn [length] in Hfuel; lia|].
    rewrite Hworld, Hdone. split; [|reflexivity].
    cbn [for_of]. rewrite !bind_run. reflexivity.
Qed.

Lemma leave_try_catch_finally (body : Async unit) (w : World) :
  fst (try_catch_finally body on_catch on_finally w) = leave (body w).
Proof.
  unfold try_catch_finally, leave.
  destruct (body w) as [w1 [[]|e]]; reflexivity.
Qed.

(** X15.  On a page showing the gallery type with no upload in flight,
    dropping a batch and letting each awaited promise settle as the store
    and the query decide, with no other event in between, leaves exactly the
    world that [handleFilesDrop] computes in one go, and no run behind. *)
Theorem alone_agrees (id : js jsstring)
    (up : list File -> File -> js jsstring -> option Thrown)
    (rf : nat -> option Thrown) (files : list File) (p : Page) :
  running p = [] ->
  isGallery (selectedTypeValue (tipo_conteudo p)) = true ->
  let p' := alone id up rf (S (length files)) (step (drop files) p) in
  world p' = fst (handleFilesDrop id up rf files (world p))
  /\ running p' = [].
Proof.
  intros Hrun Hgal. cbn zeta. cbn [step]. rewrite Hgal.
  destruct files as [|file rest].
  - cbn [start]. rewrite alone_idle by exact Hrun.
    split; [reflexivity|exact Hrun].
  - unfold start, handleFilesDrop. cbn [length Nat.eqb].
    set (W1 := exec (setIsUploading true) (world p)).
    assert (HW1 : setIsUploading true (world p) = (W1, Normal tt))
      by reflexivity.
    clearbody W1. rewrite !bind_run, HW1.
    destruct (map_of_createObjectURL (file :: rest) W1) as [ps [_ Hmap]].
    match type of Hmap with _ = (?w, _) => set (W2 := w) in Hmap end.
    clearbody W2. rewrite Hmap.
    set (W3 := exec (appendLocalPreviews ps) W2).
    assert (HW3 : appendLocalPreviews ps W2 = (W3, Normal tt))
      by reflexivity.
    clearbody W3. rewrite HW3, Hrun. cbn [app].
    destruct (alone_loop id up rf rest file W3
                {| tipo_conteudo := tipo_conteudo p;
                   world := call_uploadFile file W3;
                   running := [await_uploadFile file rest];
                   refetched_under := refetched_under p |}
                (S (S (length rest))))
      as [Hworld Hdone];
      [reflexivity|reflexivity|lia|].
    rewrite Hworld, Hdone. split; [|reflexivity].
    refine (eq_trans _ (eq_sym (leave_try_catch_finally _ W1))).
    apply f_equal. symmetry.
    rewrite (bind_run (map_of _ _) _ W1), Hmap.
    rewrite (bind_run (appendLocalPreviews ps) _ W2), HW3. reflexivity.
Qed.

Lemma alone_agrees_witness :
  world (alone undefined second_call_fails refetch_resolves 4
           (step (drop [photo 1; photo 2; photo 3]) gallery_page))
  = fst (handleFilesDrop undefined second_call_fails refetch_resolves
           [photo 1; photo 2; photo 3] empty_world).
Proof.
  apply (alone_agrees undefined second_call_fails refetch_resolves
           [photo 1; photo 2; photo 3] gallery_page); reflexivity.
Defined.

(** X16.  The [finally] block acts on the state every run of the handler
    shares.  When a run ends, because its refetch settled or because a call
    it awaited threw, every preview on the page is revoked and dropped and
    the uploading flag is cleared, whichever batch the previews came from
    and whether or not other runs are still suspended. *)
Theorem finish_clears_shared_state (i : nat) (a : Awaiting) (o : Outcome)
    (p : Page) :
  nth_error (running p) i = Some a ->
  a = await_refetch \/ (exists err, o = threw err) ->
  let p' := step (settle i o) p in
  localPreviews (world p') = []
  /\ isUploading (world p') = false
  /\ revoked_urls (world p')
     = revoked_urls (world p) ++ map url (localPreviews (world p))
  /\ running p' = splice1 i (running p).
Proof.
  intros Hnth Hends. cbn zeta. cbn [step]. rewrite Hnth.
  destruct Hends as [->|[err ->]].
  - destruct o; cbn; repeat split.
  - destruct a as [file [|next rest]|]; cbn; repeat split.
Qed.

Lemma finish_clears_shared_state_witness :
  let p := run [drop [photo 1]; drop [photo 2]; settle 0 resolved]
             gallery_page in
  let p' := step (settle 0 resolved) p in
  length (localPreviews (world p)) = 2%nat
  /\ localPreviews (world p') = []
  /\ isUploading (world p') = false
  /\ running p' = [await_uploadFile (photo 2) []].
Proof.
  cbn zeta.
  destruct
    (finish_clears_shared_state 0 await_refetch resolved
       (run [drop [photo 1]; drop [photo 2]; settle 0 resolved] gallery_page)
       eq_refl (or_introl eq_refl))
    as (Hprev & Hflag & _ & Hrun).
  split; [reflexivity|].
  split; [exact Hprev|].
  split; [exact Hflag|].
  rewrite Hrun. reflexivity.
Defined.

End SiteComponentsFormExtra.
